(** * The frame loop of the VM: scheduling of steps and interpolated renders

    A shallow embedding of [src/engine/tw-frame-loop.js]: the display-sync
    adapter [animationFrameWrapper] and the class [FrameLoop], over an
    explicit model of the two host facilities the file calls
    ([setInterval]/[clearInterval] and
    [requestAnimationFrame]/[cancelAnimationFrame]).  The class [jgVr]
    that follows in the same file, with its three helper functions, is
    embedded after the frame loop. *)

From Stdlib Require Import ZArith Bool List Lia.
From Stdlib Require Import Floats.SpecFloat.
From stdpp Require Import base option gmap list strings.

(** ** JavaScript numbers

    A JavaScript number is an IEEE 754 binary64 value.  The Standard
    Library's [spec_float], instantiated at precision 53 and maximal
    exponent 1024, is that format with its round-to-nearest-even
    arithmetic. *)

Module Num.

Abbreviation number := spec_float.

Definition prec : Z := 53.
Definition emax : Z := 1024.

(** The number denoted by an integer literal. *)
Definition of_Z (z : Z) : number := binary_normalize prec emax z 0 false.

(** [m * 2^e], rounded: used to write down very small or large rates. *)
Definition scaled (m e : Z) : number := binary_normalize prec emax m e false.

(** [x / y] *)
Definition div (x y : number) : number := SFdiv prec emax x y.

(** [x === y] on numbers: [NaN] differs from everything, [-0 === 0]. *)
Definition strict_eq (x y : number) : bool := SFeqb x y.

(** [x > y] and [x >= y] *)
Definition gt (x y : number) : bool := SFltb y x.
Definition ge (x y : number) : bool := SFleb y x.

(** [Number.isFinite(x)] *)
Definition is_finite (x : number) : bool :=
  match x with
  | S754_zero _ | S754_finite _ _ _ => true
  | S754_infinity _ | S754_nan => false
  end.

(** A value of the format: the mantissa and exponent are canonical. *)
Definition valid (x : number) : bool := valid_binary prec emax x.

Definition zero : number := of_Z 0.
Definition undefined : number := S754_nan.

(** The mantissa of 1000, which is [m1000 * 2^-43]. *)
Definition m1000 : positive := 8796093022208000.

End Num.

Import Num.

(** ** Function references

    The frame loop passes two function objects to the host: the bound
    methods made in its constructor.  [Fn n] stands for any other function
    object; [Unbound] is the content of a callback field before the
    constructor has assigned it. *)

Inductive callback : Type :=
  | Unbound
  | Bound_step
  | Bound_renderInterpolatedPositions
  | Fn (n : nat).

#[global] Instance callback_eq_dec : EqDecision callback.
Proof. solve_decision. Defined.

(** ** The host

    [setInterval] registers a repeating timer and returns its id;
    [clearInterval] removes the timer with that id, if there is one.
    [_requestAnimationFrame] registers a function to be called once, at the
    next refresh of the display (in Node.js, [setTimeout] at 1000/60 ms), and
    returns the id of the request; [_cancelAnimationFrame] removes a pending
    request.  Ids are never reused, and clearing or cancelling an id that
    is not live does nothing.  Only what this file schedules is modelled.
    The fields [invoked] and [history] keep a record for the statements
    below; no operation reads them.

    The only functions this file ever hands to [_requestAnimationFrame] are
    [handle] closures of [animationFrameWrapper]; such a closure is its
    captured [callback] and the location of the captured variable [id],
    which it shares with the [cancel] closure of the same wrapper. *)

Definition loc := nat.

Record closure : Type := Handle { h_id : loc; h_callback : callback }.

#[global] Instance closure_eq_dec : EqDecision closure.
Proof. solve_decision. Defined.

(** What the host holds at one instant. *)
Record Tables : Type := {
  intervals : gmap nat (callback * number);
  frames : list (nat * closure)
}.

Record Host : Type := {
  tables : Tables;
  next_interval : nat;
  next_frame : nat;
  cells : list (option nat);      (* the [id] variable of each wrapper *)
  invoked : list callback;        (* calls made so far, latest first *)
  history : list Tables           (* every content of [tables], latest first *)
}.

Definition boot : Host :=
  {| tables := {| intervals := ∅; frames := [] |};
     next_interval := 1; next_frame := 1;
     cells := []; invoked := []; history := [] |}.

(** Every change of the tables goes through [set_tables], which also
    appends the new content to the history. *)
Definition set_tables (t : Tables) (h : Host) : Host :=
  {| tables := t;
     next_interval := next_interval h; next_frame := next_frame h;
     cells := cells h; invoked := invoked h;
     history := t :: history h |}.

Definition set_cells (c : list (option nat)) (h : Host) : Host :=
  {| tables := tables h;
     next_interval := next_interval h; next_frame := next_frame h;
     cells := c; invoked := invoked h; history := history h |}.

Definition log_call (cb : callback) (h : Host) : Host :=
  {| tables := tables h;
     next_interval := next_interval h; next_frame := next_frame h;
     cells := cells h; invoked := cb :: invoked h; history := history h |}.

Definition setInterval (cb : callback) (ms : number) (h : Host) : nat * Host :=
  let id := next_interval h in
  let h' :=
    {| tables := tables h;
       next_interval := S id; next_frame := next_frame h;
       cells := cells h; invoked := invoked h; history := history h |} in
  (id, set_tables {| intervals := <[id := (cb, ms)]> (intervals (tables h));
                     frames := frames (tables h) |} h').

Definition clearInterval (id : option nat) (h : Host) : Host :=
  match id with
  | Some i =>
      set_tables {| intervals := delete i (intervals (tables h));
                    frames := frames (tables h) |} h
  | None => h
  end.

Definition _requestAnimationFrame (f : closure) (h : Host) : nat * Host :=
  let id := next_frame h in
  let h' :=
    {| tables := tables h;
       next_interval := next_interval h; next_frame := S id;
       cells := cells h; invoked := invoked h; history := history h |} in
  (id, set_tables {| intervals := intervals (tables h);
                     frames := frames (tables h) ++ [(id, f)] |} h').

Definition pending (i : nat) (e : nat * closure) : bool := Nat.eqb (fst e) i.

Definition _cancelAnimationFrame (id : option nat) (h : Host) : Host :=
  match id with
  | Some i =>
      set_tables {| intervals := intervals (tables h);
                    frames := List.filter (fun e => negb (pending i e))
                                          (frames (tables h)) |} h
  | None => h
  end.

(** ** [animationFrameWrapper]

    [let id;] allocates the variable, the first request is made with the
    [handle] closure and its id stored; the object returned holds [cancel],
    which is determined by the location of [id]. *)

Definition read_id (l : loc) (h : Host) : option nat :=
  match cells h !! l with
  | Some v => v
  | None => None
  end.

(** [id = _requestAnimationFrame(handle)], for the [handle] closure [f] *)
Definition resubmit (f : closure) (h : Host) : Host :=
  let '(i, h) := _requestAnimationFrame f h in
  set_cells (<[h_id f := Some i]> (cells h)) h.

Definition animationFrameWrapper (cb : callback) (h : Host) : loc * Host :=
  let l := length (cells h) in
  let h := set_cells (cells h ++ [None]) h in
  let h := resubmit (Handle l cb) h in
  (l, h).

(** [cancel = () => _cancelAnimationFrame(id)] *)
Definition cancel (l : loc) (h : Host) : Host :=
  _cancelAnimationFrame (read_id l h) h.

(** ** The [FrameLoop] object and the runtime field it writes *)

Record FrameLoop : Type := {
  running : bool;
  framerate : number;
  interpolation : bool;
  stepCallback : callback;
  interpolationCallback : callback;
  _stepInterval : option nat;
  _interpolationAnimation : option loc;
  _stepAnimation : option loc
}.

Record World : Type := {
  host : Host;
  currentStepTime : number;       (* [runtime.currentStepTime] *)
  loop : FrameLoop
}.

Definition with_host (h : Host) (w : World) : World :=
  {| host := h; currentStepTime := currentStepTime w; loop := loop w |}.

Definition with_loop (o : FrameLoop) (w : World) : World :=
  {| host := host w; currentStepTime := currentStepTime w; loop := o |}.

Definition set_currentStepTime (t : number) (w : World) : World :=
  {| host := host w; currentStepTime := t; loop := loop w |}.

Definition set_running (b : bool) (o : FrameLoop) : FrameLoop :=
  {| running := b; framerate := framerate o; interpolation := interpolation o;
     stepCallback := stepCallback o;
     interpolationCallback := interpolationCallback o;
     _stepInterval := _stepInterval o;
     _interpolationAnimation := _interpolationAnimation o;
     _stepAnimation := _stepAnimation o |}.

Definition set_framerate (x : number) (o : FrameLoop) : FrameLoop :=
  {| running := running o; framerate := x; interpolation := interpolation o;
     stepCallback := stepCallback o;
     interpolationCallback := interpolationCallback o;
     _stepInterval := _stepInterval o;
     _interpolationAnimation := _interpolationAnimation o;
     _stepAnimation := _stepAnimation o |}.

Definition set_interpolation (b : bool) (o : FrameLoop) : FrameLoop :=
  {| running := running o; framerate := framerate o; interpolation := b;
     stepCallback := stepCallback o;
     interpolationCallback := interpolationCallback o;
     _stepInterval := _stepInterval o;
     _interpolationAnimation := _interpolationAnimation o;
     _stepAnimation := _stepAnimation o |}.

Definition set_stepCallback (c : callback) (o : FrameLoop) : FrameLoop :=
  {| running := running o; framerate := framerate o;
     interpolation := interpolation o;
     stepCallback := c;
     interpolationCallback := interpolationCallback o;
     _stepInterval := _stepInterval o;
     _interpolationAnimation := _interpolationAnimation o;
     _stepAnimation := _stepAnimation o |}.

Definition set_interpolationCallback (c : callback) (o : FrameLoop) : FrameLoop :=
  {| running := running o; framerate := framerate o;
     interpolation := interpolation o;
     stepCallback := stepCallback o;
     interpolationCallback := c;
     _stepInterval := _stepInterval o;
     _interpolationAnimation := _interpolationAnimation o;
     _stepAnimation := _stepAnimation o |}.

Definition set_stepInterval (v : option nat) (o : FrameLoop) : FrameLoop :=
  {| running := running o; framerate := framerate o;
     interpolation := interpolation o;
     stepCallback := stepCallback o;
     interpolationCallback := interpolationCallback o;
     _stepInterval := v;
     _interpolationAnimation := _interpolationAnimation o;
     _stepAnimation := _stepAnimation o |}.

Definition set_interpolationAnimation (v : option loc) (o : FrameLoop) : FrameLoop :=
  {| running := running o; framerate := framerate o;
     interpolation := interpolation o;
     stepCallback := stepCallback o;
     interpolationCallback := interpolationCallback o;
     _stepInterval := _stepInterval o;
     _interpolationAnimation := v;
     _stepAnimation := _stepAnimation o |}.

Definition set_stepAnimation (v : option loc) (o : FrameLoop) : FrameLoop :=
  {| running := running o; framerate := framerate o;
     interpolation := interpolation o;
     stepCallback := stepCallback o;
     interpolationCallback := interpolationCallback o;
     _stepInterval := _stepInterval o;
     _interpolationAnimation := _interpolationAnimation o;
     _stepAnimation := v |}.

(** ** The methods of [FrameLoop] *)

Definition start (w : World) : World :=
  let w := with_loop (set_running true (loop w)) w in
  if strict_eq (framerate (loop w)) zero then
    let '(a, h) := animationFrameWrapper (stepCallback (loop w)) (host w) in
    with_loop (set_stepAnimation (Some a) (loop w)) (with_host h w)
  else
    let w :=
      if interpolation (loop w) then
        let '(a, h) :=
          animationFrameWrapper (interpolationCallback (loop w)) (host w) in
        with_loop (set_interpolationAnimation (Some a) (loop w)) (with_host h w)
      else w in
    let '(i, h) :=
      setInterval (stepCallback (loop w))
                  (div (of_Z 1000) (framerate (loop w))) (host w) in
    with_loop (set_stepInterval (Some i) (loop w)) (with_host h w).

Definition stop (w : World) : World :=
  let w := with_loop (set_running false (loop w)) w in
  let w := with_host (clearInterval (_stepInterval (loop w)) (host w)) w in
  let w :=
    match _interpolationAnimation (loop w) with
    | Some a => with_host (cancel a (host w)) w
    | None => w
    end in
  let w :=
    match _stepAnimation (loop w) with
    | Some a => with_host (cancel a (host w)) w
    | None => w
    end in
  let w := with_loop (set_interpolationAnimation None (loop w)) w in
  with_loop (set_stepAnimation None (loop w)) w.

Definition _restart (w : World) : World :=
  if running (loop w) then start (stop w) else w.

Definition setFramerate (fps : number) (w : World) : World :=
  let w := with_loop (set_framerate fps (loop w)) w in
  let w :=
    if strict_eq fps zero then
      set_currentStepTime (div (of_Z 1000) (of_Z 60)) w
    else
      set_currentStepTime (div (of_Z 1000) (framerate (loop w))) w in
  _restart w.

Definition setInterpolation (b : bool) (w : World) : World :=
  let w := with_loop (set_interpolation b (loop w)) w in
  _restart w.

(** The object as [new] hands it to the constructor: no field assigned yet.
    Reading an unassigned field gives [undefined], which is falsy and, as a
    number, [NaN]. *)
Definition blank : FrameLoop :=
  {| running := false; framerate := undefined; interpolation := false;
     stepCallback := Unbound; interpolationCallback := Unbound;
     _stepInterval := None; _interpolationAnimation := None;
     _stepAnimation := None |}.

(** [new FrameLoop(runtime)], for a runtime whose [currentStepTime] is [t0]
    and a host in state [h]. *)
Definition constructor (h : Host) (t0 : number) : World :=
  let w := {| host := h; currentStepTime := t0; loop := blank |} in
  let w := with_loop (set_running false (loop w)) w in
  let w := setFramerate (of_Z 60) w in
  let w := setInterpolation false w in
  let w := with_loop (set_stepCallback Bound_step (loop w)) w in
  let w := with_loop (set_interpolationCallback
                        Bound_renderInterpolatedPositions (loop w)) w in
  let w := with_loop (set_stepInterval None (loop w)) w in
  let w := with_loop (set_interpolationAnimation None (loop w)) w in
  with_loop (set_stepAnimation None (loop w)) w.

(** A frame loop made on a freshly booted host. *)
Definition fresh : World := constructor boot undefined.

(** ** What the callbacks do, and the events of the host

    The two functions of the runtime are outside this file.  All the frame
    loop can observe of them is which of its own methods they call while
    they run (a project may change the frame rate from inside a step); a
    callback handed to [animationFrameWrapper] by a test may also call the
    [cancel] it was given. *)

Inductive call : Type :=
  | Start
  | Stop
  | SetFramerate (fps : number)
  | SetInterpolation (b : bool).

Definition do_call (c : call) (w : World) : World :=
  match c with
  | Start => start w
  | Stop => stop w
  | SetFramerate fps => setFramerate fps w
  | SetInterpolation b => setInterpolation b w
  end.

Definition do_calls (cs : list call) (w : World) : World :=
  fold_left (fun w c => do_call c w) cs w.

Inductive cmd : Type :=
  | Method (c : call)
  | Cancel (l : loc).

Definition exec_cmd (c : cmd) (w : World) : World :=
  match c with
  | Method m => do_call m w
  | Cancel l => with_host (cancel l (host w)) w
  end.

Definition exec_cmds (cs : list cmd) (w : World) : World :=
  fold_left (fun w c => exec_cmd c w) cs w.

(** The host removes a request from its table at the moment it runs it. *)
Definition take_frame (i : nat) (h : Host) : Host :=
  set_tables {| intervals := intervals (tables h);
                frames := List.filter (fun e => negb (pending i e))
                                      (frames (tables h)) |} h.

Section Events.

Variable behaviour : callback -> list cmd.

(** [callback()] *)
Definition invoke (cb : callback) (w : World) : World :=
  exec_cmds (behaviour cb) (with_host (log_call cb (host w)) w).

(** The body of [handle]: [id = _requestAnimationFrame(handle); callback();] *)
Definition handle (f : closure) (w : World) : World :=
  let w := with_host (resubmit f (host w)) w in
  invoke (h_callback f) w.

(** The request with id [i] comes due. *)
Definition fire_frame (i : nat) (w : World) : World :=
  match List.find (pending i) (frames (tables (host w))) with
  | Some (_, f) => handle f (with_host (take_frame i (host w)) w)
  | None => w
  end.

(** One refresh of the display: the requests pending when it begins are run
    in the order they were made, except those cancelled in the meantime;
    requests made during the refresh wait for the next one. *)
Definition refresh (w : World) : World :=
  fold_left (fun w i => fire_frame i w)
            (map fst (frames (tables (host w)))) w.

Fixpoint refreshes (n : nat) (w : World) : World :=
  match n with
  | O => w
  | S n => refreshes n (refresh w)
  end.

(** The timer with id [i] comes due. *)
Definition tick (i : nat) (w : World) : World :=
  match intervals (tables (host w)) !! i with
  | Some (cb, _) => invoke cb w
  | None => w
  end.

Inductive action : Type :=
  | Do (c : call)
  | Refresh
  | Fire (i : nat)
  | Tick (i : nat).

Definition exec (a : action) (w : World) : World :=
  match a with
  | Do c => do_call c w
  | Refresh => refresh w
  | Fire i => fire_frame i w
  | Tick i => tick i w
  end.

Definition run (l : list action) (w : World) : World :=
  fold_left (fun w a => exec a w) l w.

End Events.

(** ** Live scheduling sources

    A source of [cb] is a live timer whose function is [cb], or a pending
    request of a wrapper whose callback is [cb]. *)

Definition timer_sources (cb : callback) (t : Tables) : nat :=
  length (List.filter (fun kv => bool_decide (fst (snd kv) = cb))
                      (map_to_list (intervals t))).

Definition sync_sources (cb : callback) (t : Tables) : nat :=
  length (List.filter (fun e => bool_decide (h_callback (snd e) = cb))
                      (frames t)).

Definition sources (cb : callback) (t : Tables) : nat :=
  timer_sources cb t + sync_sources cb t.

(** The wrapper at [l] is live: its current request is pending. *)
Definition wrapper_live (l : loc) (h : Host) : bool :=
  match read_id l h with
  | Some i => existsb (pending i) (frames (tables h))
  | None => false
  end.

Definition timer_live (i : nat) (h : Host) : bool :=
  bool_decide (is_Some (intervals (tables h) !! i)).

Definition no_sources (t : Tables) : Prop :=
  intervals t = ∅ /\ frames t = [].

Definition at_most_one (t : Tables) : Prop :=
  sources Bound_step t <= 1 /\
  sources Bound_renderInterpolatedPositions t <= 1.

(** An interpolation source is live. *)
Definition interpolation_live (w : World) : bool :=
  Nat.ltb 0 (sources Bound_renderInterpolatedPositions (tables (host w))).

(** ** States kept by the methods

    In a stopped loop nothing is scheduled; in a running one the host holds
    exactly what the mode table of [start] prescribes for the stored
    configuration, and the fields of the loop point at it. *)

Definition bound (o : FrameLoop) : Prop :=
  stepCallback o = Bound_step /\
  interpolationCallback o = Bound_renderInterpolatedPositions.

Definition one_wrapper (cb : callback) (a : option loc) (h : Host) : Prop :=
  exists l i, a = Some l /\ frames (tables h) = [(i, Handle l cb)] /\
              cells h !! l = Some (Some i).

Definition one_timer (cb : callback) (ms : number) (a : option nat)
    (h : Host) : Prop :=
  exists i, a = Some i /\ intervals (tables h) = {[ i := (cb, ms) ]} /\
            i < next_interval h.

Definition mode_table (w : World) : Prop :=
  let o := loop w in
  let h := host w in
  if running o then
    if strict_eq (framerate o) zero then
      intervals (tables h) = ∅ /\ _interpolationAnimation o = None /\
      one_wrapper Bound_step (_stepAnimation o) h
    else
      one_timer Bound_step (div (of_Z 1000) (framerate o))
                (_stepInterval o) h /\
      _stepAnimation o = None /\
      if interpolation o then
        one_wrapper Bound_renderInterpolatedPositions
                    (_interpolationAnimation o) h
      else _interpolationAnimation o = None /\ frames (tables h) = []
  else
    no_sources (tables h) /\
    _interpolationAnimation o = None /\ _stepAnimation o = None.

Definition consistent (w : World) : Prop :=
  bound (loop w) /\ mode_table w /\ Forall at_most_one (history (host w)).

(** ** Reachable states

    [legal]: the methods are called freely, except that [start] is called
    on a stopped loop only.  [engine_safe]: what a callback of the runtime
    may do while it runs. *)

Definition legal (a : action) (w : World) : Prop :=
  match a with
  | Do Start => running (loop w) = false
  | _ => True
  end.

Definition engine_safe (c : cmd) : Prop :=
  match c with
  | Method Start => False
  | Method _ => True
  | Cancel _ => False
  end.

Inductive reachable (behaviour : callback -> list cmd) : World -> Prop :=
  | reach_fresh : reachable behaviour fresh
  | reach_exec w a :
      reachable behaviour w -> legal a w ->
      reachable behaviour (exec behaviour a w).

(** A reconfiguration, or an event of the host. *)
Definition reconfigures (a : action) : Prop :=
  match a with
  | Do Start | Do Stop => False
  | _ => True
  end.

(** The configuration and the runtime field replaced, all else kept. *)
Definition reconfigured (fr : number) (ip : bool) (t : number) (w : World) : World :=
  {| host := host w; currentStepTime := t;
     loop := set_interpolation ip (set_framerate fr (loop w)) |}.

(** The tick interval [setFramerate] gives the runtime. *)
Definition tick_interval (fps : number) : number :=
  if strict_eq fps zero then div (of_Z 1000) (of_Z 60)
  else div (of_Z 1000) fps.

(** ** Auxiliary notions used in the statements *)

(** The state with the record of past tables dropped. *)
Definition forget (h : Host) : Host :=
  {| tables := tables h;
     next_interval := next_interval h; next_frame := next_frame h;
     cells := cells h; invoked := invoked h; history := [] |}.

Definition erase (w : World) : World := with_host (forget (host w)) w.

(** [if (a) a.cancel()] *)
Definition cancel_if_set (a : option loc) (h : Host) : Host :=
  match a with
  | Some l => cancel l h
  | None => h
  end.

(** The tables are what the history says they are. *)
Definition recorded (h : Host) : Prop :=
  tables h = hd (tables boot) (history h).

(** The ids stored in the [id] variables of the wrappers were all handed
    out by the host already, and no two variables hold the same id. *)
Definition tidy (h : Host) : Prop :=
  (forall l j, cells h !! l = Some (Some j) -> j < next_frame h) /\
  (forall l l' j, cells h !! l = Some (Some j) ->
                  cells h !! l' = Some (Some j) -> l = l').

(** A timer, or a wrapper, of the step callback that no field of the loop
    points at. *)
Definition leaked_timer (i : nat) (w : World) : Prop :=
  (exists ms, intervals (tables (host w)) !! i = Some (Bound_step, ms)) /\
  i < next_interval (host w) /\ _stepInterval (loop w) <> Some i.

Definition leaked_wrapper (l : loc) (w : World) : Prop :=
  (exists j, In (j, Handle l Bound_step) (frames (tables (host w))) /\
             cells (host w) !! l = Some (Some j)) /\
  _stepAnimation (loop w) <> Some l /\
  _interpolationAnimation (loop w) <> Some l.

(** The wrapper at [l], around [cb], is the only thing scheduled for the
    next refresh. *)
Definition alone (l : loc) (cb : callback) (w : World) : Prop :=
  exists j, frames (tables (host w)) = [(j, Handle l cb)] /\
            cells (host w) !! l = Some (Some j).

(** A run in which [start] is only ever called on a stopped loop. *)
Fixpoint legal_run (behaviour : callback -> list cmd) (acts : list action)
    (w : World) : bool :=
  match acts with
  | [] => true
  | a :: acts =>
      match a with
      | Do Start => negb (running (loop w))
      | _ => true
      end && legal_run behaviour acts (exec behaviour a w)
  end.

(** ** Callbacks used in the examples *)

(** Callbacks that do not call back into the frame loop. *)
Definition quiet (cb : callback) : list cmd := [].

(** A step that sets the frame rate, as a project can. *)
Definition busy (cb : callback) : list cmd :=
  match cb with
  | Bound_step => [Method (SetFramerate (of_Z 30))]
  | _ => []
  end.

(** A callback that cancels the wrapper at location 0. *)
Definition once (cb : callback) : list cmd :=
  match cb with
  | Fn 1 => [Cancel 0]
  | _ => []
  end.

(** ** Notions used in the further properties of the frame loop *)

(** An event of the host: a refresh, a request or a timer coming due. *)
Definition host_event (a : action) : Prop :=
  match a with
  | Do _ => False
  | _ => True
  end.

(** The callbacks a refresh of the display is to run, by the mode table. *)
Definition due_on_refresh (o : FrameLoop) : list callback :=
  if running o then
    if strict_eq (framerate o) zero then [stepCallback o]
    else if interpolation o then [interpolationCallback o] else []
  else [].

(** The callbacks the timer [i] is to run when it comes due. *)
Definition due_on_tick (i : nat) (o : FrameLoop) : list callback :=
  if running o && negb (strict_eq (framerate o) zero)
     && bool_decide (_stepInterval o = Some i)
  then [stepCallback o] else [].

(** The number of sources of each kind the mode table prescribes. *)
Definition step_sources_due (o : FrameLoop) : nat :=
  if running o then 1 else 0.

Definition interpolation_sources_due (o : FrameLoop) : nat :=
  if running o && negb (strict_eq (framerate o) zero) && interpolation o
  then 1 else 0.

(** Every live timer has an id the host has already handed out. *)
Definition timers_known (h : Host) : Prop :=
  forall i v, intervals (tables h) !! i = Some v -> i < next_interval h.

(** The ids of the pending requests are distinct, and the host has handed
    them all out already. *)
Definition frames_known (h : Host) : Prop :=
  NoDup (map fst (frames (tables h))) /\
  forall e, In e (frames (tables h)) -> fst e < next_frame h.

(** The same closures requested anew, in the same order, with the ids the
    host hands out from [n] on. *)
Fixpoint renumber (n : nat) (l : list (nat * closure)) : list (nat * closure) :=
  match l with
  | [] => []
  | (_, f) :: l => (n, f) :: renumber (S n) l
  end.

(** The number of calls of [cb] in a record of calls *)
Definition calls_of (cb : callback) (l : list callback) : nat :=
  length (List.filter (fun c => bool_decide (c = cb)) l).

(** [-x], [x < y], [x * y], [x - y] and [x + y] *)
Definition neg (x : number) : number := SFopp x.
Definition less (x y : number) : bool := SFltb x y.
Definition mul (x y : number) : number := SFmul prec emax x y.
Definition sub (x y : number) : number := SFsub prec emax x y.
Definition add (x y : number) : number := SFadd prec emax x y.

(** A step that stops the loop, as a project can. *)
Definition halting (cb : callback) : list cmd :=
  match cb with
  | Bound_step => [Method Stop]
  | _ => []
  end.

(** * The VR extension

    The class [jgVr] of the same file, with the three functions before it.
    What it calls on the host (the WebGL context, WebXR, the renderer) is
    recorded in [calls]; what the host calls back (the promises resolving,
    the [end] event of a session, the frames of a session) is a function of
    its own.  Objects of the host are known by a number. *)

(** [new XRWebGLLayer(session, gl, {alpha, stencil, antialias})] *)
Record XRWebGLLayer : Type := Layer {
  layer_session : nat;
  layer_context : nat;
  alpha : bool;
  stencil : bool;
  antialias : bool
}.

(** The fields of the renderer this file reads or writes. *)
Record Renderer : Type := {
  canvas : option nat;
  gl : option nat;
  xrEnabled : bool;
  xrLayer : option XRWebGLLayer;
  _xrSession : option nat;
  dirty : bool
}.

Record Runtime : Type := {
  renderer : option Renderer;
  stageWidth : number
}.

(** [frame.device]: an array of coordinates and a quaternion *)
Record Device : Type := {
  position : list number;
  quaternion : list number
}.

Inductive effect : Type :=
  | BindFramebuffer            (* gl.bindFramebuffer(gl.FRAMEBUFFER, null) *)
  | MakeXRCompatible           (* gl.makeXRCompatible() *)
  | RequestSession             (* navigator.xr.requestSession(SESSION_TYPE) *)
  | AddEndListener (s : nat)   (* session.addEventListener("end", ...) *)
  | UpdateRenderState (s : nat) (l : XRWebGLLayer)
  | RequestFrame (s : nat)     (* session.requestAnimationFrame(drawFrame) *)
  | Draw                       (* renderer.draw() *)
  | End (s : nat).             (* session.end() *)

Record jgVr : Type := {
  runtime : option Runtime;
  open : bool;
  session : option nat;
  device : option Device;
  calls : list effect               (* calls made on the host, latest first *)
}.

Definition set_open (b : bool) (v : jgVr) : jgVr :=
  {| runtime := runtime v; open := b; session := session v;
     device := device v; calls := calls v |}.

Definition set_session (s : option nat) (v : jgVr) : jgVr :=
  {| runtime := runtime v; open := open v; session := s;
     device := device v; calls := calls v |}.

Definition set_device (d : option Device) (v : jgVr) : jgVr :=
  {| runtime := runtime v; open := open v; session := session v;
     device := d; calls := calls v |}.

Definition log (e : effect) (v : jgVr) : jgVr :=
  {| runtime := runtime v; open := open v; session := session v;
     device := device v; calls := e :: calls v |}.

Definition set_xrEnabled (b : bool) (r : Renderer) : Renderer :=
  {| canvas := canvas r; gl := gl r; xrEnabled := b; xrLayer := xrLayer r;
     _xrSession := _xrSession r; dirty := dirty r |}.

Definition set_xrLayer (l : option XRWebGLLayer) (r : Renderer) : Renderer :=
  {| canvas := canvas r; gl := gl r; xrEnabled := xrEnabled r; xrLayer := l;
     _xrSession := _xrSession r; dirty := dirty r |}.

Definition set_xrSession (s : option nat) (r : Renderer) : Renderer :=
  {| canvas := canvas r; gl := gl r; xrEnabled := xrEnabled r;
     xrLayer := xrLayer r; _xrSession := s; dirty := dirty r |}.

Definition set_dirty (b : bool) (r : Renderer) : Renderer :=
  {| canvas := canvas r; gl := gl r; xrEnabled := xrEnabled r;
     xrLayer := xrLayer r; _xrSession := _xrSession r; dirty := b |}.

(** The renderer is one object, reached through the runtime: an assignment
    to a field of it is seen by every later read. *)
Definition store (r : Renderer) (v : jgVr) : jgVr :=
  match runtime v with
  | Some rt =>
      {| runtime := Some {| renderer := Some r; stageWidth := stageWidth rt |};
         open := open v; session := session v; device := device v;
         calls := calls v |}
  | None => v
  end.

(** [new jgVr(runtime)] *)
Definition jgVr_constructor (rt : option Runtime) : jgVr :=
  {| runtime := rt; open := false; session := None; device := None;
     calls := [] |}.

Definition _getCanvas (v : jgVr) : option nat :=
  match runtime v with
  | None => None
  | Some rt =>
      match renderer rt with
      | None => None
      | Some r => canvas r
      end
  end.

Definition _getContext (v : jgVr) : option nat :=
  match runtime v with
  | None => None
  | Some rt =>
      match renderer rt with
      | None => None
      | Some r => gl r
      end
  end.

Definition _getRenderer (v : jgVr) : option Renderer :=
  match runtime v with
  | None => None
  | Some rt => renderer rt
  end.

Definition _disposeImmersive (v : jgVr) : jgVr :=
  let v := set_session None v in
  match _getContext v with
  | None => v
  | Some _ =>
      let v := log BindFramebuffer v in
      match _getRenderer v with
      | None => v
      | Some r => store (set_xrLayer None (set_xrEnabled false r)) v
      end
  end.

(** [_createImmersive] is asynchronous.  It runs up to its first [await];
    when the context has been made compatible it asks for a session; when
    the session [s] is granted it runs to its end.  [xr] tells whether
    [navigator] has WebXR; [g] is the context read before the first
    [await].  The renderer read before the first [await] is the renderer
    of the runtime, which nothing here replaces. *)
Inductive outcome : Type :=
  | Resolved_false
  | Resolved_undefined
  | Waiting.

Definition _createImmersive (xr : bool) (v : jgVr) : outcome * jgVr :=
  if negb xr then (Resolved_false, v)
  else
    match _getContext v with
    | None => (Resolved_undefined, v)
    | Some _ =>
        match _getRenderer v with
        | None => (Resolved_undefined, v)
        | Some _ => (Waiting, log MakeXRCompatible v)
        end
    end.

Definition _createImmersive_compatible (v : jgVr) : jgVr :=
  log RequestSession v.

Definition on_renderer (f : Renderer -> Renderer) (v : jgVr) : jgVr :=
  match _getRenderer v with
  | Some r => store (f r) v
  | None => v
  end.

Definition _createImmersive_granted (g s : nat) (v : jgVr) : jgVr :=
  let v := set_session (Some s) v in
  let v := set_open true v in
  let v := on_renderer (set_xrEnabled true) v in
  let v := log (AddEndListener s) v in
  let layer :=
    {| layer_session := s; layer_context := g;
       alpha := true; stencil := true; antialias := false |} in
  let v := log (UpdateRenderState s layer) v in
  let v := on_renderer (set_xrLayer (Some layer)) v in
  let v := on_renderer (set_xrSession (Some s)) v in
  log (RequestFrame s) v.

(** The listener of the [end] event of a session *)
Definition end_listener (v : jgVr) : jgVr :=
  _disposeImmersive (set_open false v).

(** [drawFrame], of the session [s], called with a frame whose [device]
    is [d] *)
Definition drawFrame (s : nat) (d : option Device) (v : jgVr) : jgVr :=
  if negb (open v) then v
  else
    let v := set_device d v in
    let v := on_renderer (set_dirty true) v in
    let v := log Draw v in
    log (RequestFrame s) v.

Definition isOpened (v : jgVr) : bool := open v.

(** [None]: returned at once, no promise made. *)
Definition createSession (xr : bool) (v : jgVr) : option outcome * jgVr :=
  if open v then (None, v)
  else
    match session v with
    | Some _ => (None, v)
    | None =>
        let '(o, v) := _createImmersive xr v in
        (Some o, v)
    end.

Definition closeSession (v : jgVr) : jgVr :=
  let v := set_open false v in
  match session v with
  | None => v
  | Some s => log (End s) v
  end.

(** The frames of the session [s] the host delivers, one after the other *)
Definition frames_of (s : nat) (ds : list (option Device)) (v : jgVr) : jgVr :=
  fold_left (fun v d => drawFrame s d v) ds v.

(** [Math.PI] *)
Definition PI : number := S754_finite false 7074237752028440 (-51).

Definition toRad (deg : number) : number := mul deg (div PI (of_Z 180)).
Definition toDeg (rad : number) : number := mul rad (div (of_Z 180) PI).

(** An element of an array of numbers, read as a number *)
Definition at_index (i : nat) (a : list number) : number :=
  nth i a undefined.

(** A block argument *)
Inductive argument : Type :=
  | Text (s : string)
  | Number (x : number)
  | Boolean (b : bool).

(** What a function returns, or that it throws a [TypeError] *)
Inductive completion (A : Type) : Type :=
  | Normal (a : A)
  | TypeError.

Arguments Normal {A} a.
Arguments TypeError {A}.

(** [array.indexOf(s)]: [None] stands for -1 *)
Fixpoint indexOf (s : string) (l : list string) : option nat :=
  match l with
  | [] => None
  | x :: l => if String.eqb x s then Some 0 else option_map S (indexOf s l)
  end.

Section Blocks.

(** [Cast.toString] is outside this file, [toLowerCase] and [trim] are
    methods of the strings of the host, [Math.atan2] and [Math.asin]
    functions of the host. *)
Variable Cast_toString : argument -> string.
Variable toLowerCase : string -> string.
Variable trim : string -> string.
Variable atan2 : number -> number -> number.
Variable asin : number -> number.

Definition normalize (a : argument) : string :=
  trim (toLowerCase (Cast_toString a)).

Definition quaternionToEuler (quat : list number) : list number :=
  let q0 := at_index 0 quat in
  let q1 := at_index 1 quat in
  let q2 := at_index 2 quat in
  let q3 := at_index 3 quat in
  let Rx := atan2 (mul (of_Z 2) (add (mul q0 q1) (mul q2 q3)))
                  (sub (of_Z 1) (mul (of_Z 2) (add (mul q1 q1) (mul q2 q2)))) in
  let Ry := asin (mul (of_Z 2) (sub (mul q0 q2) (mul q3 q1))) in
  let Rz := atan2 (mul (of_Z 2) (add (mul q0 q3) (mul q1 q2)))
                  (sub (of_Z 1) (mul (of_Z 2) (add (mul q2 q2) (mul q3 q3)))) in
  [Rx; Ry; Rz].

Definition _isVector3Menu (option : argument) : bool :=
  let normalized := normalize option in
  existsb (String.eqb normalized) ["x"; "y"; "z"].

(** [None] is [undefined]. *)
Definition headsetPosition (VECTOR3 : argument) (v : jgVr) : option number :=
  if negb (open v) then None
  else
    match session v with
    | None => None
    | Some _ =>
        match device v with
        | None => None
        | Some d =>
            let vector3 := normalize VECTOR3 in
            if negb (_isVector3Menu (Text vector3)) then None
            else
              match indexOf vector3 ["x"; "y"; "z"] with
              | Some idx => position d !! idx
              | None => None
              end
        end
    end.

Definition headsetRotation (VECTOR3 : argument) (v : jgVr) : number :=
  if negb (open v) then of_Z 0
  else
    match session v with
    | None => of_Z 0
    | Some _ =>
        match device v with
        | None => of_Z 0
        | Some d =>
            let vector3 := normalize VECTOR3 in
            if negb (_isVector3Menu (Text vector3)) then of_Z 0
            else
              let euler := quaternionToEuler (quaternion d) in
              match indexOf vector3 ["x"; "y"; "z"] with
              | Some idx => toDeg (at_index idx euler)
              | None => toDeg undefined
              end
        end
    end.

Definition placement169 (SIDE : argument) (v : jgVr) : completion number :=
  let side := normalize SIDE in
  match runtime v with
  | None => TypeError
  | Some rt =>
      let width := stageWidth rt in
      let multX := div width (of_Z 640) in
      let valueR := mul (sub (div (of_Z 640) (of_Z 4)) (of_Z 40)) multX in
      let valueL := sub (of_Z 0) valueR in
      if String.eqb side "right" then Normal valueR else Normal valueL
  end.

End Blocks.

(** ** An extension used in the examples *)

(** A runtime with a stage 480 wide and a renderer that has a context. *)
Definition studio : jgVr :=
  jgVr_constructor
    (Some {| renderer :=
               Some {| canvas := Some 0; gl := Some 1; xrEnabled := false;
                       xrLayer := None; _xrSession := None; dirty := false |};
             stageWidth := of_Z 480 |}).

(** The extension with the session 7 granted, after one frame. *)
Definition immersed : jgVr :=
  drawFrame 7
    (Some {| position := [of_Z 1; of_Z 2; of_Z 3];
             quaternion := [of_Z 0; of_Z 0; of_Z 0; of_Z 1] |})
    (_createImmersive_granted 1 7
       (_createImmersive_compatible (snd (createSession true studio)))).

(** Arguments that are strings already in lower case and trimmed. *)
Definition plain (a : argument) : string :=
  match a with
  | Text s => s
  | _ => ""
  end.

Definition unchanged (s : string) : string := s.

Arguments strict_eq : simpl never.
Arguments div : simpl never.
Arguments of_Z : simpl never.
Arguments zero : simpl never.
Arguments gt : simpl never.
Arguments ge : simpl never.

(** * Proofs *)

(** ** Counting sources, and symbolic execution of the methods *)

Lemma timer_sources_empty cb fs :
  timer_sources cb {| intervals := ∅; frames := fs |} = 0.
Proof. unfold timer_sources; cbn. by rewrite map_to_list_empty. Qed.

Lemma timer_sources_singleton cb i c ms fs :
  timer_sources cb {| intervals := {[ i := (c, ms) ]}; frames := fs |} =
  if decide (c = cb) then 1 else 0.
Proof.
  unfold timer_sources; cbn. rewrite map_to_list_singleton. cbn.
  unfold bool_decide. by destruct (decide_rel eq c cb).
Qed.

Ltac count_sources :=
  unfold at_most_one, sources;
  rewrite ?timer_sources_empty, ?timer_sources_singleton;
  unfold sync_sources; vm_compute; lia.

Ltac open_world w :=
  destruct w as [[[ints frs] ni nf cs inv hist] t [r fr ip sc ic si ia sa]];
  unfold consistent, bound, mode_table, one_wrapper, one_timer, no_sources in *;
  cbn in *.

Ltac hist_ok :=
  repeat (apply Forall_cons; split; [count_sources |]); trivial.

Ltac host_calls :=
  unfold cancel, read_id, clearInterval, _cancelAnimationFrame, set_tables; cbn.

Lemma start_consistent w :
  consistent w -> running (loop w) = false -> consistent (start w).
Proof.
  open_world w.
  intros [[-> ->] [Hm Hh]] ->. cbn in Hm.
  destruct Hm as ((-> & ->) & -> & ->).
  unfold start; cbn.
  destruct (strict_eq fr zero) eqn:E; cbn.
  - rewrite E. repeat split; trivial.
    + exists (length cs), nf. repeat split; trivial.
      apply list_lookup_insert_eq. rewrite length_app; cbn; lia.
    + hist_ok.
  - destruct ip; cbn; rewrite E; rewrite insert_empty.
    + repeat split; trivial.
      * exists ni. repeat split; trivial. lia.
      * exists (length cs), nf. repeat split; trivial.
        apply list_lookup_insert_eq. rewrite length_app; cbn; lia.
      * hist_ok.
    + repeat split; trivial.
      * exists ni. repeat split; trivial. lia.
      * hist_ok.
Qed.

Lemma stop_reconfigured fr' ip' t' w :
  consistent w ->
  consistent (stop (reconfigured fr' ip' t' w)) /\
  running (loop (stop (reconfigured fr' ip' t' w))) = false.
Proof.
  open_world w.
  intros [[-> ->] [Hm Hh]].
  destruct r; cbn in Hm.
  - destruct (strict_eq fr zero) eqn:E.
    + destruct Hm as (-> & -> & l & i & -> & -> & Hc).
      unfold stop; cbn. destruct si; host_calls; rewrite Hc; cbn;
        rewrite Nat.eqb_refl; cbn; rewrite ?delete_empty;
        repeat split; trivial; hist_ok.
    + destruct Hm as ((i & -> & -> & Hi) & -> & Hm).
      destruct ip.
      * destruct Hm as (l & j & -> & -> & Hc).
        unfold stop; host_calls; rewrite Hc; cbn;
        rewrite Nat.eqb_refl; cbn; rewrite ?delete_singleton_eq;
        repeat split; trivial; hist_ok.
      * destruct Hm as (-> & ->).
        unfold stop; host_calls; rewrite ?delete_singleton_eq;
        repeat split; trivial; hist_ok.
  - destruct Hm as ((-> & ->) & -> & ->).
    unfold stop; cbn. destruct si; host_calls; rewrite ?delete_empty;
        repeat split; trivial; hist_ok.
Qed.

Lemma reconfigured_id w :
  reconfigured (framerate (loop w)) (interpolation (loop w))
               (currentStepTime w) w = w.
Proof. by destruct w as [h t []]. Qed.

Lemma reconfigured_stopped fr' ip' t' w :
  consistent w -> running (loop w) = false ->
  consistent (reconfigured fr' ip' t' w).
Proof.
  open_world w. intros [[-> ->] [Hm Hh]] ->. cbn in Hm. repeat split; tauto.
Qed.

Lemma restart_reconfigured fr ip t w :
  consistent w -> consistent (_restart (reconfigured fr ip t w)).
Proof.
  intros H. unfold _restart.
  replace (running (loop (reconfigured fr ip t w))) with (running (loop w))
    by (by destruct w as [h t0 []]).
  destruct (running (loop w)) eqn:R.
  - destruct (stop_reconfigured fr ip t w H). by apply start_consistent.
  - by apply reconfigured_stopped.
Qed.

Lemma setFramerate_reconfigured fps w :
  setFramerate fps w =
  _restart (reconfigured fps (interpolation (loop w))
              (if strict_eq fps zero then div (of_Z 1000) (of_Z 60)
               else div (of_Z 1000) fps) w).
Proof.
  unfold setFramerate. destruct w as [h t []]; cbn.
  by destruct (strict_eq fps zero).
Qed.

Lemma setInterpolation_reconfigured b w :
  setInterpolation b w =
  _restart (reconfigured (framerate (loop w)) b (currentStepTime w) w).
Proof. unfold setInterpolation. by destruct w as [h t []]. Qed.

Lemma stop_host w :
  host (stop w) =
  cancel_if_set (_stepAnimation (loop w))
    (cancel_if_set (_interpolationAnimation (loop w))
       (clearInterval (_stepInterval (loop w)) (host w))).
Proof. destruct w as [h t [r fr ip sc ic si [] []]]; done. Qed.

Lemma stop_loop w :
  loop (stop w) =
  set_stepAnimation None
    (set_interpolationAnimation None (set_running false (loop w))).
Proof. destruct w as [h t [r fr ip sc ic si [] []]]; done. Qed.

Lemma stop_currentStepTime w : currentStepTime (stop w) = currentStepTime w.
Proof. destruct w as [h t [r fr ip sc ic si [] []]]; done. Qed.

Lemma start_host w :
  host (start w) =
  if strict_eq (framerate (loop w)) zero then
    snd (animationFrameWrapper (stepCallback (loop w)) (host w))
  else
    snd (setInterval (stepCallback (loop w))
           (div (of_Z 1000) (framerate (loop w)))
           (if interpolation (loop w) then
              snd (animationFrameWrapper (interpolationCallback (loop w))
                     (host w))
            else host w)).
Proof.
  destruct w as [h t [r fr ip sc ic si ia sa]]. unfold start; cbn.
  by destruct (strict_eq fr zero), ip.
Qed.

(** ** Properties of the host kept by every operation

    A property of the host that each of its operations keeps is kept by
    the methods of the frame loop, by the callbacks and by the events. *)

Section HostInvariant.

Variable P : Host -> Prop.
Hypothesis P_setInterval : forall cb ms h, P h -> P (snd (setInterval cb ms h)).
Hypothesis P_clearInterval : forall i h, P h -> P (clearInterval i h).
Hypothesis P_wrapper :
  forall cb h, P h -> P (snd (animationFrameWrapper cb h)).
Hypothesis P_cancel : forall l h, P h -> P (cancel l h).
Hypothesis P_take_frame : forall i h, P h -> P (take_frame i h).
Hypothesis P_resubmit : forall f h, P h -> P (resubmit f h).
Hypothesis P_log_call : forall cb h, P h -> P (log_call cb h).

Lemma kept_by_stop w : P (host w) -> P (host (stop w)).
Proof.
  intros H. rewrite stop_host.
  destruct (_stepAnimation (loop w)), (_interpolationAnimation (loop w));
    cbn [cancel_if_set]; auto.
Qed.

Lemma kept_by_start w : P (host w) -> P (host (start w)).
Proof.
  intros H. rewrite start_host.
  destruct (strict_eq _ _); [by apply P_wrapper |].
  apply P_setInterval. destruct (interpolation _); [by apply P_wrapper | done].
Qed.

Lemma kept_by_do_call c w : P (host w) -> P (host (do_call c w)).
Proof.
  intros H. destruct c; cbn.
  - by apply kept_by_start.
  - by apply kept_by_stop.
  - rewrite setFramerate_reconfigured. unfold _restart.
    destruct (running _); [| done]. by apply kept_by_start, kept_by_stop.
  - rewrite setInterpolation_reconfigured. unfold _restart.
    destruct (running _); [| done]. by apply kept_by_start, kept_by_stop.
Qed.

Lemma kept_by_do_calls cs w : P (host w) -> P (host (do_calls cs w)).
Proof.
  revert w. induction cs as [| c cs IH]; intros w H; [done |].
  cbn. by apply IH, kept_by_do_call.
Qed.

Variable behaviour : callback -> list cmd.

Lemma kept_by_exec_cmds cs w : P (host w) -> P (host (exec_cmds cs w)).
Proof.
  revert w. induction cs as [| c cs IH]; intros w H; [done |].
  cbn. apply IH. destruct c as [m | l]; cbn.
  - by apply kept_by_do_call.
  - by apply P_cancel.
Qed.

Lemma kept_by_invoke cb w : P (host w) -> P (host (invoke behaviour cb w)).
Proof.
  intros H. unfold invoke. apply kept_by_exec_cmds. by apply P_log_call.
Qed.

Lemma kept_by_fire_frame i w :
  P (host w) -> P (host (fire_frame behaviour i w)).
Proof.
  intros H. unfold fire_frame.
  destruct (find (pending i) (frames (tables (host w)))) as [[j f] |];
    [| done].
  unfold handle. apply kept_by_invoke. cbn [host with_host].
  by apply P_resubmit, P_take_frame.
Qed.

Lemma kept_by_refresh w : P (host w) -> P (host (refresh behaviour w)).
Proof.
  unfold refresh. generalize (map fst (frames (tables (host w)))).
  intros l. revert w. induction l as [| i l IH]; intros w H; [done |].
  cbn. by apply IH, kept_by_fire_frame.
Qed.

Lemma kept_by_exec a w : P (host w) -> P (host (exec behaviour a w)).
Proof.
  intros H. destruct a; cbn.
  - by apply kept_by_do_call.
  - by apply kept_by_refresh.
  - by apply kept_by_fire_frame.
  - unfold tick. destruct (_ !! _) as [[cb ms] |]; [| done].
    by apply kept_by_invoke.
Qed.

Lemma kept_by_run acts w : P (host w) -> P (host (run behaviour acts w)).
Proof.
  revert w. induction acts as [| a acts IH]; intros w H; [done |].
  cbn. by apply IH, kept_by_exec.
Qed.

End HostInvariant.

(** The current content of the tables is the last one recorded. *)

Lemma recorded_exec behaviour a w :
  recorded (host w) -> recorded (host (exec behaviour a w)).
Proof.
  apply kept_by_exec.
  - done.
  - intros [i |] h H; done.
  - done.
  - intros l h H. unfold cancel. by destruct (read_id l h).
  - done.
  - done.
  - done.
Qed.

Lemma reachable_recorded behaviour w :
  reachable behaviour w -> recorded (host w).
Proof.
  induction 1 as [| w a _ IH _]; [by vm_compute | by apply recorded_exec].
Qed.

Lemma do_call_consistent c w :
  consistent w -> legal (Do c) w -> consistent (do_call c w).
Proof.
  intros H L. destruct c; cbn in *.
  - by apply start_consistent.
  - rewrite <- (reconfigured_id w). by apply stop_reconfigured.
  - rewrite setFramerate_reconfigured. by apply restart_reconfigured.
  - rewrite setInterpolation_reconfigured. by apply restart_reconfigured.
Qed.

Lemma exec_cmds_consistent cs w :
  Forall engine_safe cs -> consistent w -> consistent (exec_cmds cs w).
Proof.
  intros Hs. revert w. induction Hs as [| c cs Hc _ IH]; intros w H; [done |].
  cbn. apply IH. destruct c as [m | l]; [| done].
  cbn. apply do_call_consistent; [done |]. by destruct m.
Qed.

Section Preservation.

Variable behaviour : callback -> list cmd.
Hypothesis engine : forall cb, Forall engine_safe (behaviour cb).

Lemma invoke_consistent cb w :
  consistent w -> consistent (invoke behaviour cb w).
Proof.
  intros H. unfold invoke. apply exec_cmds_consistent; [apply engine |].
  by destruct w as [[] ? ?].
Qed.

Lemma fire_frame_consistent i w :
  consistent w -> consistent (fire_frame behaviour i w).
Proof.
  intros H. unfold fire_frame.
  destruct (find (pending i) (frames (tables (host w)))) as [[j f] |] eqn:F;
    [| done].
  unfold handle; cbn. apply invoke_consistent.
  revert H F. open_world w.
  intros [[-> ->] [Hm Hh]] F.
  destruct r; cbn in Hm.
  - destruct (strict_eq fr zero) eqn:E.
    + destruct Hm as (-> & -> & l & k & -> & -> & Hc).
      cbn in F. unfold pending in *; cbn in *.
      destruct (k =? i) eqn:K; [| done]. injection F as <- <-. cbn.
      repeat split; trivial; [| hist_ok].
      exists l, nf. repeat split; trivial.
      apply list_lookup_insert_eq. by eapply lookup_lt_Some.
    + destruct Hm as ((i0 & -> & -> & Hi) & -> & Hm).
      destruct ip.
      * destruct Hm as (l & k & -> & -> & Hc).
        cbn in F. unfold pending in *; cbn in *.
        destruct (k =? i) eqn:K; [| done]. injection F as <- <-. cbn.
        repeat split; trivial; [| | hist_ok].
        -- exists i0. by repeat split.
        -- exists l, nf. repeat split; trivial.
           apply list_lookup_insert_eq. by eapply lookup_lt_Some.
      * destruct Hm as (-> & ->). done.
  - destruct Hm as ((-> & ->) & -> & ->). done.
Qed.

Lemma refresh_consistent w :
  consistent w -> consistent (refresh behaviour w).
Proof.
  unfold refresh. generalize (map fst (frames (tables (host w)))).
  intros l. revert w. induction l as [| i l IH]; intros w H; [done |].
  cbn. apply IH. by apply fire_frame_consistent.
Qed.

Lemma tick_consistent i w :
  consistent w -> consistent (tick behaviour i w).
Proof.
  intros H. unfold tick.
  destruct (intervals (tables (host w)) !! i) as [[cb ms] |]; [| done].
  by apply invoke_consistent.
Qed.

Lemma exec_consistent a w :
  consistent w -> legal a w -> consistent (exec behaviour a w).
Proof.
  intros H L. destruct a; cbn.
  - by apply do_call_consistent.
  - by apply refresh_consistent.
  - by apply fire_frame_consistent.
  - by apply tick_consistent.
Qed.

Lemma fresh_consistent : consistent fresh.
Proof. repeat split; constructor. Qed.

Lemma reachable_consistent w : reachable behaviour w -> consistent w.
Proof.
  induction 1 as [| w a _ IH L]; [apply fresh_consistent |].
  by apply exec_consistent.
Qed.

End Preservation.

(** ** Comparisons with zero *)

Lemma gt_zero_not_eq x : gt x zero = true -> strict_eq x zero = false.
Proof. by destruct x as [[] | [] | | [] m e]. Qed.

Lemma ge_zero_gt x : ge x zero = true -> gt x zero = negb (strict_eq x zero).
Proof. by destruct x as [[] | [] | | [] m e]. Qed.

(** ** The constructor *)

(** C10: a newly constructed frame loop is stopped, with frame rate 60,
    interpolation off, the three handle fields empty and the tick interval
    of the runtime set to 1000/60; the constructor makes no call to the
    host, so that nothing is scheduled. *)
Theorem constructor_state (h : Host) (t0 : number) :
  let w := constructor h t0 in
  running (loop w) = false /\
  framerate (loop w) = of_Z 60 /\
  interpolation (loop w) = false /\
  _stepInterval (loop w) = None /\
  _interpolationAnimation (loop w) = None /\
  _stepAnimation (loop w) = None /\
  stepCallback (loop w) = Bound_step /\
  interpolationCallback (loop w) = Bound_renderInterpolatedPositions /\
  currentStepTime w = div (of_Z 1000) (of_Z 60) /\
  host w = h /\
  no_sources (tables (host fresh)) /\ history (host fresh) = [].
Proof. cbn. by repeat split. Qed.

Lemma consistent_stopped w :
  consistent w -> running (loop w) = false ->
  bound (loop w) /\ no_sources (tables (host w)).
Proof.
  intros (B & M & _) R. unfold mode_table in M. rewrite R in M.
  split; [done | apply M].
Qed.

(** ** [start] *)

Section Start.

Variable behaviour : callback -> list cmd.
Hypothesis engine : forall cb, Forall engine_safe (behaviour cb).

(** C1: [start], called on a stopped loop, schedules what the mode table
    says.  At frame rate 0: one display-sync wrapper around the step
    callback, and nothing else.  At a frame rate above 0: one timer of
    period 1000/framerate running the step callback, and, when
    interpolation is on, one display-sync wrapper around the render
    callback; nothing else. *)
Theorem start_mode_table (w : World) :
  reachable behaviour w -> running (loop w) = false ->
  let fps := framerate (loop w) in
  let h := host w in
  let timer := (Bound_step, div (of_Z 1000) fps) in
  let wrapper cb := (next_frame h, Handle (length (cells h)) cb) in
  running (loop (start w)) = true /\
  (strict_eq fps zero = true ->
     tables (host (start w)) =
       {| intervals := ∅; frames := [wrapper Bound_step] |} /\
     sources Bound_step (tables (host (start w))) = 1 /\
     sources Bound_renderInterpolatedPositions (tables (host (start w))) = 0) /\
  (gt fps zero = true -> interpolation (loop w) = false ->
     tables (host (start w)) =
       {| intervals := {[ next_interval h := timer ]}; frames := [] |} /\
     sources Bound_step (tables (host (start w))) = 1 /\
     sources Bound_renderInterpolatedPositions (tables (host (start w))) = 0) /\
  (gt fps zero = true -> interpolation (loop w) = true ->
     tables (host (start w)) =
       {| intervals := {[ next_interval h := timer ]};
          frames := [wrapper Bound_renderInterpolatedPositions] |} /\
     sources Bound_step (tables (host (start w))) = 1 /\
     sources Bound_renderInterpolatedPositions (tables (host (start w))) = 1).
Proof.
  intros Hr R.
  destruct (consistent_stopped w (reachable_consistent _ engine w Hr) R)
    as [[Bs Bi] [Hi Hf]].
  destruct w as [[[ints frs] ni nf cs inv hist] t [r fr ip sc ic si ia sa]].
  cbn in *. subst. unfold start; cbn.
  split; [by destruct (strict_eq fr zero), ip |].
  split; [| split].
  - intros ->. cbn. by repeat split.
  - intros G ->. rewrite (gt_zero_not_eq _ G). cbn. rewrite insert_empty.
    repeat split; count_sources.
  - intros G ->. rewrite (gt_zero_not_eq _ G). cbn. rewrite insert_empty.
    repeat split; count_sources.
Qed.

End Start.

Lemma consistent_at_most_one w :
  consistent w -> at_most_one (tables (host w)).
Proof.
  open_world w.
  intros [[-> ->] [Hm Hh]].
  destruct r; cbn in Hm.
  - destruct (strict_eq fr zero) eqn:E.
    + destruct Hm as (-> & -> & l & i & -> & -> & Hc). count_sources.
    + destruct Hm as ((i & -> & -> & Hi) & -> & Hm).
      destruct ip.
      * destruct Hm as (l & j & -> & -> & Hc). count_sources.
      * destruct Hm as (-> & ->). count_sources.
  - destruct Hm as ((-> & ->) & -> & ->). count_sources.
Qed.

(** ** Reconfiguration while running *)

Section Reconfiguration.

Variable behaviour : callback -> list cmd.
Hypothesis engine : forall cb, Forall engine_safe (behaviour cb).

Lemma reachable_start w :
  reachable behaviour w -> running (loop w) = false ->
  reachable behaviour (start w).
Proof. intros H R. by apply (reach_exec behaviour w (Do Start)). Qed.

Lemma reachable_reconfigured acts w :
  Forall reconfigures acts -> reachable behaviour w ->
  reachable behaviour (run behaviour acts w).
Proof.
  intros Ha. revert w. induction Ha as [| a acts Hr _ IH]; intros w H; [done |].
  cbn. apply IH. apply reach_exec; [done |].
  destruct a as [[] | | |]; done.
Qed.

(** C2: as long as [start] is only called on a stopped loop, the host never
    holds more than one source of the step callback nor more than one
    source of the render callback: not now, and not at any instant before.
    In particular, start a new frame loop once, then reconfigure it any
    number of times with [setFramerate] and [setInterpolation], while
    frames and timers come due in any order (and the callbacks themselves
    may reconfigure or stop the loop): every replacement is scheduled after
    what it replaces was cancelled. *)
Theorem no_double_subscription :
  (forall w, reachable behaviour w ->
     at_most_one (tables (host w)) /\
     Forall at_most_one (history (host w)) /\
     recorded (host w)) /\
  (forall acts, Forall reconfigures acts ->
     let w := run behaviour acts (start fresh) in
     at_most_one (tables (host w)) /\
     Forall at_most_one (history (host w)) /\
     recorded (host w)).
Proof.
  assert (forall w, reachable behaviour w ->
            at_most_one (tables (host w)) /\
            Forall at_most_one (history (host w)) /\
            recorded (host w)) as G.
  { intros w Hr. pose proof (reachable_consistent _ engine w Hr) as H.
    split; [by apply consistent_at_most_one |]. split; [apply H |].
    by eapply reachable_recorded. }
  split; [exact G |]. intros acts Ha. cbn zeta.
  apply (G (run behaviour acts (start fresh))).
  apply (reachable_reconfigured acts (start fresh) Ha).
  apply reachable_start; [constructor | by vm_compute].
Qed.

End Reconfiguration.

(** ** [setFramerate] *)

Lemma restart_framerate w : framerate (loop (_restart w)) = framerate (loop w).
Proof.
  unfold _restart, start, stop.
  destruct w as [h t [r fr ip sc ic si ia sa]]; cbn.
  destruct r; [| done]. destruct ia, sa; cbn;
  destruct (strict_eq fr zero), ip; done.
Qed.

Lemma restart_currentStepTime w : currentStepTime (_restart w) = currentStepTime w.
Proof.
  unfold _restart, start, stop.
  destruct w as [h t [r fr ip sc ic si ia sa]]; cbn.
  destruct r; [| done]. destruct ia, sa; cbn;
  destruct (strict_eq fr zero), ip; done.
Qed.

Lemma stop_next_interval w :
  next_interval (host (stop w)) = next_interval (host w).
Proof.
  rewrite stop_host.
  assert (forall a h, next_interval (cancel_if_set a h) = next_interval h) as C.
  { intros [l |] h; [| done]. unfold cancel_if_set, cancel.
    by destruct (read_id l h). }
  rewrite !C. by destruct (_stepInterval (loop w)).
Qed.

Lemma start_timer w :
  strict_eq (framerate (loop w)) zero = false ->
  intervals (tables (host (start w))) =
  <[ next_interval (host w) :=
       (stepCallback (loop w), div (of_Z 1000) (framerate (loop w))) ]>
    (intervals (tables (host w))).
Proof.
  intros E. rewrite start_host, E. by destruct (interpolation (loop w)).
Qed.

(** C3: [setFramerate fps] stores the rate and the tick interval computed
    from it.  On a running loop it is then [stop] followed by [start], so
    that at a rate other than 0 the step timer is replaced by one of period
    1000/fps; on a stopped loop it does nothing more: the host is not
    called, and the next [start] schedules by the stored rate.  So
    [setFramerate 45] on a new loop leaves the host as it was, sets the tick
    interval to 1000/45, and the first [start] makes a timer of period
    1000/45. *)
Theorem setFramerate_effect (fps : number) (w : World) :
  let stored :=
    reconfigured fps (interpolation (loop w)) (tick_interval fps) w in
  let timer := (stepCallback (loop w), div (of_Z 1000) fps) in
  framerate (loop (setFramerate fps w)) = fps /\
  currentStepTime (setFramerate fps w) = tick_interval fps /\
  (running (loop w) = true ->
     setFramerate fps w = start (stop stored) /\
     (strict_eq fps zero = false ->
        intervals (tables (host (setFramerate fps w))) =
        <[ next_interval (host w) := timer ]>
          (intervals (tables (host (stop w)))))) /\
  (running (loop w) = false ->
     setFramerate fps w = stored /\ host (setFramerate fps w) = host w /\
     (strict_eq fps zero = false ->
        intervals (tables (host (start (setFramerate fps w)))) =
        <[ next_interval (host w) := timer ]>
          (intervals (tables (host w))))) /\
  host (setFramerate (of_Z 45) fresh) = boot /\
  currentStepTime (setFramerate (of_Z 45) fresh) = div (of_Z 1000) (of_Z 45) /\
  tables (host (start (setFramerate (of_Z 45) fresh))) =
    {| intervals := {[ 1 := (Bound_step, div (of_Z 1000) (of_Z 45)) ]};
       frames := [] |}.
Proof.
  cbn zeta. rewrite setFramerate_reconfigured. fold (tick_interval fps).
  rewrite restart_framerate, restart_currentStepTime.
  set (stored := reconfigured fps (interpolation (loop w))
                   (tick_interval fps) w).
  assert (host stored = host w /\ framerate (loop stored) = fps /\
          stepCallback (loop stored) = stepCallback (loop w) /\
          running (loop stored) = running (loop w) /\
          stop stored = reconfigured fps (interpolation (loop w))
                          (tick_interval fps) (stop w))
    as (Sh & Sf & Sc & Sr & Ss).
  { unfold stored. by destruct w as [h t [r fr ip sc ic si [] []]]. }
  split; [done |]. split; [done |].
  unfold _restart. rewrite Sr.
  split; [| split; [| by vm_compute]].
  - intros ->. split; [done |]. intros E.
    rewrite start_timer; rewrite Ss; cbn [reconfigured loop host].
    + rewrite stop_next_interval, stop_loop. by destruct (loop w).
    + by destruct (loop (stop w)).
  - intros ->. split; [done |]. split; [done |]. intros E.
    rewrite start_timer; [by rewrite Sh, Sf, Sc | by rewrite Sf].
Qed.

(** ** [stop] *)

Lemma filter_twice {A} (f : A -> bool) l :
  List.filter f (List.filter f l) = List.filter f l.
Proof.
  induction l as [| x l IH]; [done |]. cbn.
  destruct (f x) eqn:E; cbn; rewrite ?E, IH; done.
Qed.

Lemma not_pending_after_cancel i fs :
  existsb (pending i) (List.filter (fun e => negb (pending i e)) fs) = false.
Proof.
  induction fs as [| x l IH]; [done |]. cbn.
  destruct (pending i x) eqn:E; cbn; rewrite ?E, IH; done.
Qed.

Lemma not_pending_filter i (f : nat * closure -> bool) fs :
  existsb (pending i) fs = false ->
  existsb (pending i) (List.filter f fs) = false.
Proof.
  induction fs as [| x l IH]; [done |]. cbn.
  intros [Hx Hl]%orb_false_elim.
  destruct (f x); cbn; rewrite ?Hx; auto.
Qed.

Lemma cancel_not_live l h : wrapper_live l (cancel l h) = false.
Proof.
  unfold wrapper_live, cancel, read_id, _cancelAnimationFrame.
  destruct (cells h !! l) as [[i |] |] eqn:E; cbn; rewrite ?E; try done.
  apply not_pending_after_cancel.
Qed.

Lemma cancel_keeps_dead l l' h :
  wrapper_live l h = false -> wrapper_live l (cancel l' h) = false.
Proof.
  unfold wrapper_live, cancel, read_id, _cancelAnimationFrame.
  destruct (cells h !! l') as [[i' |] |] eqn:E'; cbn; try done.
  destruct (cells h !! l) as [[i |] |] eqn:E; cbn; try done.
  apply not_pending_filter.
Qed.

Lemma cancel_if_set_intervals a h :
  intervals (tables (cancel_if_set a h)) = intervals (tables h).
Proof.
  destruct a as [l |]; [| done]. unfold cancel_if_set, cancel.
  by destruct (read_id l h).
Qed.

Lemma cancel_if_set_cells a h : cells (cancel_if_set a h) = cells h.
Proof.
  destruct a as [l |]; [| done]. unfold cancel_if_set, cancel.
  by destruct (read_id l h).
Qed.

Lemma cancel_if_set_keeps_dead l a h :
  wrapper_live l h = false -> wrapper_live l (cancel_if_set a h) = false.
Proof. destruct a; [apply cancel_keeps_dead | done]. Qed.

Lemma stop_cancels w :
  running (loop (stop w)) = false /\
  _interpolationAnimation (loop (stop w)) = None /\
  _stepAnimation (loop (stop w)) = None /\
  (forall i, _stepInterval (loop w) = Some i ->
             timer_live i (host (stop w)) = false) /\
  (forall l, _interpolationAnimation (loop w) = Some l ->
             wrapper_live l (host (stop w)) = false) /\
  (forall l, _stepAnimation (loop w) = Some l ->
             wrapper_live l (host (stop w)) = false).
Proof.
  rewrite stop_loop, stop_host. repeat split.
  - intros i ->. unfold timer_live. rewrite !cancel_if_set_intervals. cbn.
    rewrite lookup_delete_eq. apply bool_decide_eq_false. by intros [? ?].
  - intros l ->. apply cancel_if_set_keeps_dead. apply cancel_not_live.
  - intros l ->. apply cancel_not_live.
Qed.

Lemma forget_clearInterval_dead i h :
  intervals (tables h) !! i = None ->
  forget (clearInterval (Some i) h) = forget h.
Proof.
  intros H. destruct h as [[ints frs] ni nf cs inv hist]; cbn in *.
  unfold forget; cbn. by rewrite delete_id.
Qed.

Lemma stop_twice w : erase (stop (stop w)) = erase (stop w).
Proof.
  assert (forget (host (stop (stop w))) = forget (host (stop w))) as H.
  { rewrite (stop_host (stop w)), stop_loop.
    cbn [set_stepAnimation set_interpolationAnimation set_running
         _stepAnimation _interpolationAnimation _stepInterval cancel_if_set].
    destruct (_stepInterval (loop w)) as [i |] eqn:E; [| done].
    apply forget_clearInterval_dead.
    rewrite stop_host, !cancel_if_set_intervals, E. cbn.
    apply lookup_delete_eq. }
  unfold erase, with_host.
  by rewrite H, (stop_currentStepTime (stop w)), (stop_loop (stop w)),
             (stop_loop w).
Qed.

Lemma stop_stopped w :
  consistent w -> running (loop w) = false -> erase (stop w) = erase w.
Proof.
  intros H R. destruct (consistent_stopped w H R) as [_ [Hi Hf]].
  destruct H as (_ & M & _). unfold mode_table in M. rewrite R in M.
  destruct M as (_ & Ia & Sa).
  destruct w as [[[ints frs] ni nf cs inv hist] t [r fr ip sc ic si ia sa]].
  cbn in *. subst. unfold stop, erase, clearInterval; cbn.
  destruct si; cbn; rewrite ?delete_empty; done.
Qed.

(** C4, as the code has it: after [stop] the loop is not running, the two
    wrapper fields are empty, and the timer and the wrappers that the
    fields pointed at are cancelled.  A second [stop] changes nothing in
    the loop, the runtime or the host, and [stop] on a loop that was never
    started, where [clearInterval] is called with [null] and removes
    nothing, leaves the whole state as it was.  If [start] was never called
    on a running loop, nothing at all is scheduled after [stop], and [stop]
    on a stopped loop changes nothing. *)
Theorem stop_effect (w : World) :
  running (loop (stop w)) = false /\
  _interpolationAnimation (loop (stop w)) = None /\
  _stepAnimation (loop (stop w)) = None /\
  (forall i, _stepInterval (loop w) = Some i ->
             timer_live i (host (stop w)) = false) /\
  (forall l, _interpolationAnimation (loop w) = Some l ->
             wrapper_live l (host (stop w)) = false) /\
  (forall l, _stepAnimation (loop w) = Some l ->
             wrapper_live l (host (stop w)) = false) /\
  erase (stop (stop w)) = erase (stop w) /\
  (running (loop w) = false -> _stepInterval (loop w) = None ->
   _interpolationAnimation (loop w) = None -> _stepAnimation (loop w) = None ->
   stop w = w) /\
  stop fresh = fresh /\
  (forall behaviour,
     (forall cb, Forall engine_safe (behaviour cb)) ->
     reachable behaviour w ->
     no_sources (tables (host (stop w))) /\
     (running (loop w) = false -> erase (stop w) = erase w)).
Proof.
  destruct (stop_cancels w) as (R & Ia & Sa & Ti & Li & Ls).
  do 6 (split; [done |]). split; [apply stop_twice |].
  split.
  { destruct w as [h t [r fr ip sc ic si ia sa]]; cbn.
    by intros -> -> -> ->. }
  split; [done |].
  intros behaviour engine Hr.
  pose proof (reachable_consistent _ engine w Hr) as H.
  split; [| by apply stop_stopped].
  rewrite <- (reconfigured_id w).
  destruct (stop_reconfigured (framerate (loop w)) (interpolation (loop w))
              (currentStepTime w) w H) as [H' R'].
  by destruct (consistent_stopped _ H' R') as [_ ?].
Qed.

(** C4, as the spec has it, fails: [stop] leaves the id of the cancelled
    timer in [_stepInterval]. *)
Lemma stop_keeps_timer_id :
  running (loop (stop (start fresh))) = false /\
  _stepInterval (loop (stop (start fresh))) <> None.
Proof. by vm_compute. Qed.

(** ** Interpolation *)

Lemma restart_running w : running (loop (_restart w)) = running (loop w).
Proof.
  unfold _restart, start, stop.
  destruct w as [h t [r fr ip sc ic si ia sa]]; cbn.
  destruct r; [| done]. destruct ia, sa; cbn;
  destruct (strict_eq fr zero), ip; done.
Qed.

Lemma restart_interpolation w :
  interpolation (loop (_restart w)) = interpolation (loop w).
Proof.
  unfold _restart, start, stop.
  destruct w as [h t [r fr ip sc ic si ia sa]]; cbn.
  destruct r; [| done]. destruct ia, sa; cbn;
  destruct (strict_eq fr zero), ip; done.
Qed.

Lemma consistent_interpolation_live w :
  consistent w ->
  interpolation_live w =
  running (loop w) && negb (strict_eq (framerate (loop w)) zero)
  && interpolation (loop w).
Proof.
  unfold interpolation_live. open_world w.
  intros [[-> ->] [Hm Hh]].
  destruct r; cbn in Hm.
  - destruct (strict_eq fr zero) eqn:E.
    + by destruct Hm as (-> & -> & l & i & -> & -> & Hc).
    + destruct Hm as ((i & -> & -> & Hi) & -> & Hm).
      destruct ip.
      * destruct Hm as (l & j & -> & -> & Hc).
        unfold sources. by rewrite timer_sources_singleton.
      * destruct Hm as (-> & ->).
        unfold sources. by rewrite timer_sources_singleton.
  - by destruct Hm as ((-> & ->) & -> & ->).
Qed.

Section Interpolation.

Variable behaviour : callback -> list cmd.
Hypothesis engine : forall cb, Forall engine_safe (behaviour cb).

(** C5, as the code has it: as long as [start] is never called on a running
    loop, an interpolation source is live exactly when the loop is running,
    the rate is above 0 and interpolation is on.  At rate 0 [start]
    schedules no interpolation source whatever the flag; the flag is stored
    all the same, and a running loop whose flag is on gets its interpolation
    source as soon as the rate is set above 0. *)
Theorem interpolation_gating (w : World) :
  reachable behaviour w ->
  ge (framerate (loop w)) zero = true ->
  interpolation_live w =
    running (loop w) && gt (framerate (loop w)) zero
    && interpolation (loop w) /\
  (strict_eq (framerate (loop w)) zero = true -> running (loop w) = false ->
     history (host (start w)) = tables (host (start w)) :: history (host w) /\
     sources Bound_renderInterpolatedPositions (tables (host (start w))) = 0) /\
  (forall b, interpolation (loop (setInterpolation b w)) = b) /\
  (forall fps,
     running (loop w) = true -> interpolation (loop w) = true ->
     gt fps zero = true ->
     interpolation_live (setFramerate fps w) = true).
Proof.
  intros Hr G. pose proof (reachable_consistent _ engine w Hr) as H.
  split; [| split; [| split]].
  - rewrite (ge_zero_gt _ G). by apply consistent_interpolation_live.
  - intros E R. destruct (consistent_stopped w H R) as [[Bs Bi] [Hi Hf]].
    destruct w as [[[ints frs] ni nf cs inv hist] t [r fr ip sc ic si ia sa]].
    cbn in *. subst. unfold start; cbn. rewrite E. by cbn.
  - intros b. rewrite setInterpolation_reconfigured, restart_interpolation.
    by destruct w as [h t []].
  - intros fps R I Gf.
    assert (consistent (setFramerate fps w)) as H'
      by (by apply do_call_consistent with (c := SetFramerate fps)).
    rewrite (consistent_interpolation_live _ H').
    rewrite setFramerate_reconfigured.
    rewrite restart_running, restart_interpolation, restart_framerate.
    destruct w as [h t []]; cbn in *. subst.
    by rewrite (gt_zero_not_eq _ Gf).
Qed.

(** C9: reconfigure a running loop with [setFramerate] or
    [setInterpolation]: afterwards the two callback fields hold the
    functions the constructor bound, every timer runs the bound step
    function, and every pending display-sync request wraps the bound step
    function (at rate 0) or the bound render function (otherwise). *)
Theorem restart_keeps_callbacks (w : World) (c : call) :
  reachable behaviour w -> running (loop w) = true ->
  reconfigures (Do c) ->
  let w' := do_call c w in
  stepCallback (loop w') = stepCallback (loop fresh) /\
  interpolationCallback (loop w') = interpolationCallback (loop fresh) /\
  (forall i cb ms, intervals (tables (host w')) !! i = Some (cb, ms) ->
                   cb = stepCallback (loop fresh)) /\
  (forall j f, In (j, f) (frames (tables (host w'))) ->
               h_callback f =
               if strict_eq (framerate (loop w')) zero
               then stepCallback (loop fresh)
               else interpolationCallback (loop fresh)).
Proof.
  intros Hr R Hc. cbn zeta.
  assert (consistent (do_call c w)) as H.
  { apply do_call_consistent; [by eapply reachable_consistent |].
    by destruct c. }
  clear Hr R Hc. revert H. generalize (do_call c w). clear w c.
  intros w. open_world w.
  intros [[-> ->] [Hm Hh]]. split; [done |]. split; [done |].
  destruct r; cbn in Hm.
  - destruct (strict_eq fr zero) eqn:E.
    + destruct Hm as (-> & -> & l & i & -> & -> & Hc). split.
      * intros ???. by rewrite lookup_empty.
      * intros j f [[= <- <-] | []]. done.
    + destruct Hm as ((i & -> & -> & Hi) & -> & Hm). split.
      * intros i' cb ms [_ [= <- <-]]%lookup_singleton_Some. done.
      * destruct ip.
        -- destruct Hm as (l & j & -> & -> & Hc).
           intros j' f [[= <- <-] | []]. done.
        -- destruct Hm as (-> & ->). intros j f [].
  - destruct Hm as ((-> & ->) & -> & ->). split.
    + intros ???. by rewrite lookup_empty.
    + intros j f [].
Qed.

End Interpolation.

(** C5, as the spec has it, fails: [start] on a running loop makes a second
    interpolation wrapper, which [stop] does not cancel, so that a stopped
    loop is left with a live interpolation source. *)
Lemma gating_fails_after_double_start :
  ~ (forall cs : list call,
       let w := do_calls cs fresh in
       ge (framerate (loop w)) zero = true ->
       interpolation_live w =
         running (loop w) && gt (framerate (loop w)) zero
         && interpolation (loop w)).
Proof.
  intros H.
  specialize (H [SetInterpolation true; Start; Start; Stop] eq_refl).
  vm_compute in H. discriminate H.
Qed.

(** ** Ids in the captured variables *)

Lemma tidy_boot : tidy boot.
Proof. split; intros *; cbn; by rewrite lookup_nil. Qed.

Lemma tidy_same h h' :
  cells h' = cells h -> next_frame h' = next_frame h -> tidy h -> tidy h'.
Proof. unfold tidy. by intros -> ->. Qed.

Lemma tidy_declare h : tidy h -> tidy (set_cells (cells h ++ [None]) h).
Proof.
  assert (forall l j, (cells h ++ [None]) !! l = Some (Some j) ->
                      cells h !! l = Some (Some j)) as A.
  { intros l j [H | [_ H]]%lookup_app_Some; [done |].
    by destruct (l - length (cells h)) as [| [|]]. }
  intros [F I]. split; cbn.
  - intros l j H%A. eauto.
  - intros l l' j H%A H'%A. eauto.
Qed.

Lemma tidy_resubmit f h : tidy h -> tidy (resubmit f h).
Proof.
  intros [F I]. split; cbn.
  - intros l' j [(_ & [= <-] & _) | [_ H]]%list_lookup_insert_Some; [lia |].
    apply F in H. lia.
  - intros l1 l2 j
      [(<- & E1 & _) | [N1 H1]]%list_lookup_insert_Some
      [(<- & E2 & _) | [N2 H2]]%list_lookup_insert_Some; trivial.
    + injection E1 as <-. apply F in H2. lia.
    + injection E2 as <-. apply F in H1. lia.
    + eauto.
Qed.

Lemma tidy_wrapper cb h :
  tidy h -> tidy (snd (animationFrameWrapper cb h)).
Proof.
  intros H. unfold animationFrameWrapper; cbn [snd].
  by apply tidy_resubmit, tidy_declare.
Qed.

Lemma tidy_setInterval cb ms h : tidy h -> tidy (snd (setInterval cb ms h)).
Proof. by apply tidy_same. Qed.

Lemma tidy_clearInterval i h : tidy h -> tidy (clearInterval i h).
Proof. destruct i; by apply tidy_same. Qed.

Lemma tidy_cancel l h : tidy h -> tidy (cancel l h).
Proof. unfold cancel. destruct (read_id l h); by apply tidy_same. Qed.

Lemma tidy_take_frame i h : tidy h -> tidy (take_frame i h).
Proof. by apply tidy_same. Qed.

Lemma tidy_log_call cb h : tidy h -> tidy (log_call cb h).
Proof. by apply tidy_same. Qed.

Lemma tidy_start w : tidy (host w) -> tidy (host (start w)).
Proof.
  apply kept_by_start; auto using tidy_setInterval, tidy_wrapper.
Qed.

Lemma tidy_do_call c w : tidy (host w) -> tidy (host (do_call c w)).
Proof.
  apply kept_by_do_call;
    auto using tidy_setInterval, tidy_clearInterval, tidy_wrapper, tidy_cancel.
Qed.

Lemma tidy_do_calls cs w : tidy (host w) -> tidy (host (do_calls cs w)).
Proof.
  apply kept_by_do_calls;
    auto using tidy_setInterval, tidy_clearInterval, tidy_wrapper, tidy_cancel.
Qed.

Lemma reachable_tidy behaviour w : reachable behaviour w -> tidy (host w).
Proof.
  induction 1 as [| w a _ IH _]; [apply tidy_boot |].
  revert IH. apply kept_by_exec;
    auto using tidy_setInterval, tidy_clearInterval, tidy_wrapper, tidy_cancel,
               tidy_take_frame, tidy_resubmit, tidy_log_call.
Qed.

(** ** [start] on a running loop *)

Lemma cancel_if_set_frames a h j f :
  In (j, f) (frames (tables h)) ->
  (forall l, a = Some l -> read_id l h <> Some j) ->
  In (j, f) (frames (tables (cancel_if_set a h))).
Proof.
  intros Hin Hne. destruct a as [l |]; [| done]. specialize (Hne l eq_refl).
  unfold cancel_if_set, cancel, _cancelAnimationFrame.
  destruct (read_id l h) as [j' |]; [| done]. cbn.
  apply filter_In. split; [done |]. unfold pending; cbn.
  apply negb_true_iff, Nat.eqb_neq. congruence.
Qed.

Lemma cancel_if_set_read_id a h l : read_id l (cancel_if_set a h) = read_id l h.
Proof. unfold read_id. by rewrite cancel_if_set_cells. Qed.

Lemma cancel_if_set_next_interval a h :
  next_interval (cancel_if_set a h) = next_interval h.
Proof.
  destruct a as [l |]; [| done]. unfold cancel_if_set, cancel.
  by destruct (read_id l h).
Qed.

Lemma leaked_timer_stop i w : leaked_timer i w -> leaked_timer i (stop w).
Proof.
  intros ([ms Hm] & Hlt & Hne). unfold leaked_timer.
  rewrite stop_host, stop_loop, !cancel_if_set_intervals,
    !cancel_if_set_next_interval.
  destruct w as [h t [r fr ip sc ic si ia sa]]; cbn in *.
  destruct si as [i' |]; cbn; [| by eauto].
  repeat split; trivial. exists ms.
  rewrite lookup_delete_ne; [done | congruence].
Qed.

Lemma leaked_timer_start i w : leaked_timer i w -> leaked_timer i (start w).
Proof.
  intros ([ms Hm] & Hlt & Hne). unfold leaked_timer.
  destruct w as [h t [r fr ip sc ic si ia sa]]; cbn in *.
  unfold start; cbn.
  destruct (strict_eq fr zero); cbn; [by eauto |].
  destruct ip; cbn.
  - repeat split; [| lia | intros [= ?]; lia].
    exists ms. rewrite lookup_insert_ne; [done | lia].
  - repeat split; [| lia | intros [= ?]; lia].
    exists ms. rewrite lookup_insert_ne; [done | lia].
Qed.

Lemma leaked_wrapper_stop l w :
  tidy (host w) -> leaked_wrapper l w -> leaked_wrapper l (stop w).
Proof.
  intros [_ Inj] ((j & Hin & Hc) & Hs & Hi). unfold leaked_wrapper.
  rewrite stop_host, stop_loop, !cancel_if_set_cells.
  destruct w as [h t [r fr ip sc ic si ia sa]]; cbn in *.
  assert (forall l', l' <> l -> read_id l' h <> Some j) as U.
  { intros l' N E. unfold read_id in E.
    destruct (cells h !! l') as [[j' |] |] eqn:E'; try done.
    injection E as ->. apply N. eauto. }
  repeat split; try done. exists j. split.
  - apply cancel_if_set_frames.
    + apply cancel_if_set_frames.
      * by destruct si.
      * intros l' ->. replace (read_id l' (clearInterval si h))
          with (read_id l' h) by (by destruct si).
        apply U. congruence.
    + intros l' ->. rewrite cancel_if_set_read_id.
      replace (read_id l' (clearInterval si h))
          with (read_id l' h) by (by destruct si).
      apply U. congruence.
  - by destruct si.
Qed.

Lemma wrapper_keeps cb h l j f :
  In (j, f) (frames (tables h)) -> cells h !! l = Some (Some j) ->
  In (j, f) (frames (tables (snd (animationFrameWrapper cb h)))) /\
  cells (snd (animationFrameWrapper cb h)) !! l = Some (Some j) /\
  l < length (cells h).
Proof.
  intros Hin Hc. pose proof (lookup_lt_Some _ _ _ Hc) as Hl.
  unfold animationFrameWrapper; cbn. repeat split; trivial.
  - apply in_or_app. by left.
  - rewrite list_lookup_insert_ne by lia. by rewrite lookup_app_l.
Qed.

Lemma leaked_wrapper_start l w :
  leaked_wrapper l w -> leaked_wrapper l (start w).
Proof.
  intros ((j & Hin & Hc) & Hs & Hi). unfold leaked_wrapper.
  destruct w as [h t [r fr ip sc ic si ia sa]]; cbn in *.
  unfold start; cbn.
  destruct (strict_eq fr zero); cbn.
  - destruct (wrapper_keeps sc h l j _ Hin Hc) as (A & B & C).
    repeat split; [by exists j | | done]. intros [= ?]; lia.
  - destruct ip; cbn.
    + destruct (wrapper_keeps ic h l j _ Hin Hc) as (A & B & C).
      repeat split; [by exists j | done |]. intros [= ?]; lia.
    + repeat split; [by exists j | done | done].
Qed.

Lemma leaked_timer_do_call i c w :
  leaked_timer i w -> leaked_timer i (do_call c w).
Proof.
  assert (forall w, leaked_timer i w -> leaked_timer i (_restart w)) as R.
  { intros w' H. unfold _restart. destruct (running _); [| done].
    by apply leaked_timer_start, leaked_timer_stop. }
  intros H. destruct c; cbn.
  - by apply leaked_timer_start.
  - by apply leaked_timer_stop.
  - rewrite setFramerate_reconfigured. apply R. by destruct w as [h t []].
  - rewrite setInterpolation_reconfigured. apply R. by destruct w as [h t []].
Qed.

Lemma leaked_timer_do_calls i cs w :
  leaked_timer i w -> leaked_timer i (do_calls cs w).
Proof.
  revert w. induction cs as [| c cs IH]; intros w H; [done |].
  cbn. by apply IH, leaked_timer_do_call.
Qed.

Lemma leaked_wrapper_do_call l c w :
  tidy (host w) -> leaked_wrapper l w -> leaked_wrapper l (do_call c w).
Proof.
  assert (forall w, tidy (host w) -> leaked_wrapper l w ->
                    leaked_wrapper l (_restart w)) as R.
  { intros w' T H. unfold _restart. destruct (running _); [| done].
    by apply leaked_wrapper_start, leaked_wrapper_stop. }
  intros T H. destruct c; cbn.
  - by apply leaked_wrapper_start.
  - by apply leaked_wrapper_stop.
  - rewrite setFramerate_reconfigured. apply R; by destruct w as [h t []].
  - rewrite setInterpolation_reconfigured. apply R; by destruct w as [h t []].
Qed.

Lemma leaked_wrapper_do_calls l cs w :
  tidy (host w) -> leaked_wrapper l w -> leaked_wrapper l (do_calls cs w).
Proof.
  revert w. induction cs as [| c cs IH]; intros w T H; [done |].
  cbn. apply IH; [by apply tidy_do_call | by apply leaked_wrapper_do_call].
Qed.

Lemma timer_sources_lookup cb i ms t :
  intervals t !! i = Some (cb, ms) -> 1 <= timer_sources cb t.
Proof.
  intros H. unfold timer_sources.
  apply elem_of_map_to_list, list_elem_of_In in H.
  assert (In (i, (cb, ms))
             (List.filter (fun kv => bool_decide (kv.2.1 = cb))
                          (map_to_list (intervals t)))) as F.
  { apply filter_In. split; [done |]. by apply bool_decide_eq_true. }
  destruct (List.filter _ _); [done | cbn; lia].
Qed.

Lemma sync_sources_In cb j l t :
  In (j, Handle l cb) (frames t) -> 1 <= sync_sources cb t.
Proof.
  intros H. unfold sync_sources.
  assert (In (j, Handle l cb)
             (List.filter (fun e => bool_decide (h_callback e.2 = cb))
                          (frames t))) as F.
  { apply filter_In. split; [done |]. by apply bool_decide_eq_true. }
  destruct (List.filter _ _); [done | cbn; lia].
Qed.

Lemma leaked_timer_live i w :
  leaked_timer i w ->
  timer_live i (host w) = true /\ 1 <= sources Bound_step (tables (host w)).
Proof.
  intros ([ms H] & _). split.
  - unfold timer_live. apply bool_decide_eq_true. by rewrite H.
  - apply timer_sources_lookup in H. unfold sources. lia.
Qed.

Lemma leaked_wrapper_live l w :
  leaked_wrapper l w ->
  wrapper_live l (host w) = true /\ 1 <= sources Bound_step (tables (host w)).
Proof.
  intros ((j & H & Hc) & _). split.
  - unfold wrapper_live, read_id. rewrite Hc. apply existsb_exists.
    eexists. split; [exact H |]. apply Nat.eqb_refl.
  - apply sync_sources_In in H. unfold sources. lia.
Qed.

Lemma filter_length_perm {A} (f : A -> bool) l l' :
  l ≡ₚ l' -> length (List.filter f l) = length (List.filter f l').
Proof.
  induction 1 as [| x l l' _ IH | x y l | l l' l'' _ IH _ IH']; cbn.
  - done.
  - destruct (f x); cbn; by rewrite IH.
  - destruct (f x), (f y); done.
  - by rewrite IH.
Qed.

Lemma timer_sources_second cb i j v v' fs :
  i <> j ->
  timer_sources cb {| intervals := <[ j := v' ]> {[ i := v ]}; frames := fs |} =
  (if decide (v'.1 = cb) then 1 else 0) + (if decide (v.1 = cb) then 1 else 0).
Proof.
  intros N. unfold timer_sources; cbn.
  rewrite (filter_length_perm _ _ ((j, v') :: [(i, v)])).
  - cbn. unfold bool_decide.
    by destruct (decide_rel eq v'.1 cb), (decide_rel eq v.1 cb).
  - rewrite map_to_list_insert by (by rewrite lookup_singleton_ne).
    by rewrite map_to_list_singleton.
Qed.

Section DoubleStart.

Variable behaviour : callback -> list cmd.
Hypothesis engine : forall cb, Forall engine_safe (behaviour cb).

(** C7: [start] on a running loop schedules a second source of the step
    callback beside the first.  The field that held the handle of the first
    (the timer id, or the wrapper at rate 0) now holds the handle of the
    second, and whatever methods are called afterwards, ending with [stop],
    the first source is still live. *)
Theorem start_while_running_leaks (w : World) :
  reachable behaviour w -> running (loop w) = true ->
  sources Bound_step (tables (host w)) = 1 /\
  sources Bound_step (tables (host (start w))) = 2 /\
  (strict_eq (framerate (loop w)) zero = false ->
     exists i, _stepInterval (loop w) = Some i /\
               _stepInterval (loop (start w)) <> Some i /\
               forall cs, timer_live i
                            (host (stop (do_calls cs (start w)))) = true) /\
  (strict_eq (framerate (loop w)) zero = true ->
     exists l, _stepAnimation (loop w) = Some l /\
               _stepAnimation (loop (start w)) <> Some l /\
               forall cs, wrapper_live l
                            (host (stop (do_calls cs (start w)))) = true) /\
  (forall cs,
     1 <= sources Bound_step (tables (host (stop (do_calls cs (start w)))))).
Proof.
  intros Hr R.
  pose proof (reachable_consistent _ engine w Hr) as H.
  pose proof (tidy_start w (reachable_tidy _ w Hr)) as T.
  assert (sources Bound_step (tables (host w)) = 1 /\
          sources Bound_step (tables (host (start w))) = 2 /\
          ((strict_eq (framerate (loop w)) zero = false /\
            exists i, _stepInterval (loop w) = Some i /\
                      _stepInterval (loop (start w)) <> Some i /\
                      leaked_timer i (start w)) \/
           (strict_eq (framerate (loop w)) zero = true /\
            exists l, _stepAnimation (loop w) = Some l /\
                      _stepAnimation (loop (start w)) <> Some l /\
                      leaked_wrapper l (start w)))) as (S1 & S2 & L).
  { clear T Hr. revert H R. unfold leaked_timer, leaked_wrapper.
    open_world w. intros [[-> ->] [Hm Hh]] ->. cbn in Hm.
    destruct (strict_eq fr zero) eqn:E.
    - destruct Hm as (-> & -> & l & i & -> & -> & Hc).
      pose proof (lookup_lt_Some _ _ _ Hc) as Hl.
      unfold start; cbn. rewrite E; cbn.
      split; [count_sources |]. split; [count_sources |].
      right. split; [done |]. exists l.
      split; [done |]. split; [intros [= ?]; lia |].
      repeat split; [| intros [= ?]; lia | done].
      exists i. split; [by left |].
      rewrite list_lookup_insert_ne by lia. by rewrite lookup_app_l.
    - destruct Hm as ((i & -> & -> & Hi) & -> & Hm).
      unfold start; cbn. rewrite E; cbn.
      assert (i <> ni) as N by lia.
      destruct ip; cbn.
      + destruct Hm as (l & j & -> & -> & Hc).
        unfold sources. rewrite timer_sources_singleton.
        rewrite timer_sources_second by done. cbn.
        do 2 (split; [done |]). left. split; [done |]. exists i.
        split; [done |]. split; [congruence |].
        repeat split; [| lia | congruence].
        eexists. rewrite lookup_insert_ne by done.
        apply lookup_singleton_eq.
      + destruct Hm as (-> & ->).
        unfold sources. rewrite timer_sources_singleton.
        rewrite timer_sources_second by done. cbn.
        do 2 (split; [done |]). left. split; [done |]. exists i.
        split; [done |]. split; [congruence |].
        repeat split; [| lia | congruence].
        eexists. rewrite lookup_insert_ne by done.
        apply lookup_singleton_eq. }
  split; [done |]. split; [done |].
  destruct L as [(E & i & Hi & Hn & L) | (E & l & Hl & Hn & L)].
  - split; [| split].
    + intros _. exists i. split; [done |]. split; [done |]. intros cs.
      by apply leaked_timer_live, leaked_timer_stop, leaked_timer_do_calls.
    + intros E'. congruence.
    + intros cs.
      by apply (leaked_timer_live i), leaked_timer_stop, leaked_timer_do_calls.
  - split; [| split].
    + intros E'. congruence.
    + intros _. exists l. split; [done |]. split; [done |]. intros cs.
      apply leaked_wrapper_live, leaked_wrapper_stop;
        [by apply tidy_do_calls | by apply leaked_wrapper_do_calls].
    + intros cs. apply (leaked_wrapper_live l), leaked_wrapper_stop;
        [by apply tidy_do_calls | by apply leaked_wrapper_do_calls].
Qed.

End DoubleStart.

(** ** The display-sync adapter *)

Section Adapter.

Variable behaviour : callback -> list cmd.

Lemma refresh_nothing n w :
  frames (tables (host w)) = [] -> refreshes behaviour n w = w.
Proof.
  intros H. induction n as [| n IH]; [done |]. cbn.
  unfold refresh. rewrite H. cbn. exact IH.
Qed.

Lemma refresh_alone l cb w :
  behaviour cb = [] -> alone l cb w ->
  alone l cb (refresh behaviour w) /\
  invoked (host (refresh behaviour w)) = cb :: invoked (host w).
Proof.
  intros B (j & Hf & Hc). pose proof (lookup_lt_Some _ _ _ Hc) as Hl.
  destruct w as [[[ints frs] ni nf cs inv hist] t o]; cbn in *. subst frs.
  unfold refresh, fire_frame, handle, invoke, pending; cbn.
  rewrite Nat.eqb_refl; cbn. rewrite B; cbn.
  split; [| done]. exists nf. split; [done |]. cbn.
  by apply list_lookup_insert_eq.
Qed.

Lemma repeat_shift {A} (x : A) n l :
  repeat x n ++ x :: l = repeat x (S n) ++ l.
Proof. induction n as [| n IH]; [done |]. cbn in *. by rewrite IH. Qed.

Lemma refreshes_alone l cb n w :
  behaviour cb = [] -> alone l cb w ->
  alone l cb (refreshes behaviour n w) /\
  invoked (host (refreshes behaviour n w)) = repeat cb n ++ invoked (host w).
Proof.
  intros B. revert w. induction n as [| n IH]; intros w H; [done |].
  destruct (refresh_alone l cb w B H) as [H' E]. cbn.
  destruct (IH _ H') as [H'' E']. split; [done |].
  rewrite E', E. apply repeat_shift.
Qed.

Lemma alone_live l cb w : alone l cb w -> wrapper_live l (host w) = true.
Proof.
  intros (j & Hf & Hc). unfold wrapper_live, read_id. rewrite Hc, Hf. cbn.
  unfold pending; cbn. by rewrite Nat.eqb_refl.
Qed.

Lemma cancel_alone l cb w :
  alone l cb w ->
  frames (tables (cancel l (host w))) = [] /\
  invoked (cancel l (host w)) = invoked (host w).
Proof.
  intros (j & Hf & Hc). unfold cancel, read_id. rewrite Hc; cbn.
  rewrite Hf; cbn. unfold pending; cbn. by rewrite Nat.eqb_refl.
Qed.

Lemma refresh_cancelling l cb w :
  behaviour cb = [Cancel l] -> alone l cb w ->
  frames (tables (host (refresh behaviour w))) = [] /\
  invoked (host (refresh behaviour w)) = cb :: invoked (host w).
Proof.
  intros B (j & Hf & Hc). pose proof (lookup_lt_Some _ _ _ Hc) as Hl.
  destruct w as [[[ints frs] ni nf cs inv hist] t o]; cbn in *. subst frs.
  unfold refresh, fire_frame, handle, invoke, pending; cbn.
  rewrite Nat.eqb_refl; cbn. rewrite B; cbn.
  unfold cancel, read_id; cbn.
  rewrite list_lookup_insert_eq by done. cbn.
  unfold pending; cbn. by rewrite Nat.eqb_refl.
Qed.

Lemma dead_not_live l h : frames (tables h) = [] -> wrapper_live l h = false.
Proof. intros H. unfold wrapper_live. rewrite H. by destruct (read_id l h). Qed.

Lemma cancel_twice l h : forget (cancel l (cancel l h)) = forget (cancel l h).
Proof.
  unfold cancel, read_id, _cancelAnimationFrame.
  destruct (cells h !! l) as [[j |] |] eqn:E; cbn; rewrite ?E; try done.
  unfold forget; cbn. by rewrite filter_twice.
Qed.

(** C8: make a wrapper around [cb] when nothing else is scheduled for the
    next refresh, and let the display refresh.  A callback that leaves the
    wrapper alone is called once per refresh, and the wrapper stays live.
    After [cancel], whenever it is called, the callback is not called again
    and the wrapper is not live.  A callback that calls [cancel] itself is
    called that one time and never again, the next request having been made
    before the callback ran.  A second [cancel] changes nothing. *)
Theorem display_sync_adapter (cb : callback) (w : World) :
  frames (tables (host w)) = [] ->
  let l := fst (animationFrameWrapper cb (host w)) in
  let w1 := with_host (snd (animationFrameWrapper cb (host w))) w in
  let cancelled k :=
    with_host (cancel l (host (refreshes behaviour k w1)))
              (refreshes behaviour k w1) in
  (behaviour cb = [] ->
   forall n,
     invoked (host (refreshes behaviour n w1)) =
       repeat cb n ++ invoked (host w) /\
     wrapper_live l (host (refreshes behaviour n w1)) = true) /\
  (behaviour cb = [] ->
   forall k n,
     invoked (host (refreshes behaviour n (cancelled k))) =
       repeat cb k ++ invoked (host w) /\
     wrapper_live l (host (refreshes behaviour n (cancelled k))) = false) /\
  (behaviour cb = [Cancel l] ->
   forall n,
     invoked (host (refreshes behaviour (S n) w1)) = cb :: invoked (host w) /\
     wrapper_live l (host (refreshes behaviour (S n) w1)) = false) /\
  (forall h l', forget (cancel l' (cancel l' h)) = forget (cancel l' h)).
Proof.
  intros Hf. cbn zeta.
  assert (alone (length (cells (host w))) cb
                (with_host (snd (animationFrameWrapper cb (host w))) w)) as A.
  { exists (next_frame (host w)). unfold animationFrameWrapper; cbn.
    rewrite Hf. split; [done |].
    apply list_lookup_insert_eq. rewrite length_app; cbn; lia. }
  assert (invoked (host (with_host (snd (animationFrameWrapper cb (host w))) w))
          = invoked (host w)) as I by done.
  change (fst (animationFrameWrapper cb (host w)))
    with (length (cells (host w))).
  split; [| split; [| split]].
  - intros B n. destruct (refreshes_alone _ _ n _ B A) as [A' E].
    split; [by rewrite E, I | by eapply alone_live].
  - intros B k n. destruct (refreshes_alone _ _ k _ B A) as [A' E].
    destruct (cancel_alone _ _ _ A') as [F E'].
    rewrite refresh_nothing by done. cbn [host with_host].
    split; [by rewrite E', E, I | by apply dead_not_live].
  - intros B n. cbn [refreshes].
    destruct (refresh_cancelling _ _ _ B A) as [F E].
    rewrite refresh_nothing by done.
    split; [by rewrite E, I | by apply dead_not_live].
  - intros h l'. apply cancel_twice.
Qed.

End Adapter.

(** ** The tick interval

    [1000 / x] in binary64, for a positive finite [x]: the quotient of the
    mantissas has 53 or 54 bits, so that rounding leaves a positive mantissa
    and the result is a positive number or, when its exponent passes 971,
    [+Infinity]. *)

Section Quotient.

Local Open Scope Z_scope.

Lemma pow2_step (d : Z) : 0 < d -> 2 ^ d = 2 * 2 ^ (d - 1).
Proof. intros H. rewrite <- Z.pow_succ_r by lia. f_equal. lia. Qed.

Lemma digits2_pos_bounds (p : positive) :
  2 ^ (Zpos (digits2_pos p) - 1) <= Zpos p < 2 ^ Zpos (digits2_pos p).
Proof.
  induction p as [p IH | p IH |]; cbn [digits2_pos].
  - rewrite Pos2Z.inj_succ.
    replace (Z.succ (Z.pos (digits2_pos p)) - 1)
      with (Z.pos (digits2_pos p)) by lia.
    rewrite Z.pow_succ_r by lia.
    rewrite (pow2_step (Z.pos (digits2_pos p))) in * by lia. lia.
  - rewrite Pos2Z.inj_succ.
    replace (Z.succ (Z.pos (digits2_pos p)) - 1)
      with (Z.pos (digits2_pos p)) by lia.
    rewrite Z.pow_succ_r by lia.
    rewrite (pow2_step (Z.pos (digits2_pos p))) in * by lia. lia.
  - cbn. lia.
Qed.

Lemma digits2_pos_unique (p : positive) (d : Z) :
  2 ^ (d - 1) <= Zpos p < 2 ^ d -> Zpos (digits2_pos p) = d.
Proof.
  intros [Hl Hu]. pose proof (digits2_pos_bounds p) as [Bl Bu].
  assert (0 < d) as Hd.
  { destruct (Z.lt_ge_cases 0 d) as [? | ?]; [done |].
    assert (2 ^ d <= 2 ^ 0) by (apply Z.pow_le_mono_r; lia).
    change (2 ^ 0) with 1 in *. lia. }
  destruct (Z.lt_trichotomy (Zpos (digits2_pos p)) d) as [H | [H | H]]; [| done |].
  - assert (2 ^ Zpos (digits2_pos p) <= 2 ^ (d - 1))
      by (apply Z.pow_le_mono_r; lia). lia.
  - assert (2 ^ d <= 2 ^ (Zpos (digits2_pos p) - 1))
      by (apply Z.pow_le_mono_r; lia). lia.
Qed.

Lemma bounded_inv m e :
  bounded prec emax m e = true ->
  Z.max (Zpos (digits2_pos m) + e - 53) (-1074) = e /\ e <= 971.
Proof.
  unfold bounded, canonical_mantissa, fexp, emin, prec, emax.
  intros [H1 H2]%andb_true_iff.
  apply Z.eqb_eq in H1. apply Z.leb_le in H2. lia.
Qed.

Lemma shr_m_of_loc m l : shr_m (shr_record_of_loc m l) = m.
Proof. by destruct l as [| []]. Qed.

Lemma shr_1_m p r s :
  shr_m (shr_1 {| shr_m := Zpos p; shr_r := r; shr_s := s |}) = Z.div2 (Zpos p).
Proof. by destruct p. Qed.

Lemma rne_bounds m l :
  m <= round_nearest_even m l <= m + 1.
Proof. destruct l as [| []]; cbn; try destruct (Z.even m); lia. Qed.

Lemma shr_fexp_53 p e l :
  2 ^ 52 <= Zpos p < 2 ^ 53 -> -1074 <= e ->
  shr_fexp prec emax (Zpos p) e l = (shr_record_of_loc (Zpos p) l, e).
Proof.
  intros Hp He. unfold shr_fexp. cbn [Zdigits2].
  rewrite (digits2_pos_unique p 53) by done.
  unfold fexp, emin, prec, emax.
  replace (Z.max (53 + e - 53) (3 - 1024 - 53) - e) with 0 by lia.
  done.
Qed.

Lemma shr_fexp_54 p e l :
  2 ^ 53 <= Zpos p < 2 ^ 54 -> -1074 <= e ->
  shr_fexp prec emax (Zpos p) e l =
  (shr_1 (shr_record_of_loc (Zpos p) l), e + 1).
Proof.
  intros Hp He. unfold shr_fexp. cbn [Zdigits2].
  rewrite (digits2_pos_unique p 54) by done.
  unfold fexp, emin, prec, emax.
  replace (Z.max (54 + e - 53) (3 - 1024 - 53) - e) with 1 by lia.
  done.
Qed.

(** Rounding a quotient of 53 or 54 bits: the mantissa stays positive and
    the exponent grows by at most one. *)
Lemma round_aux_positive q e lz :
  2 ^ 52 <= q <= 2 * Zpos m1000 -> -1074 <= e ->
  exists m' e',
    (e' = e \/ e' = e + 1) /\
    binary_round_aux prec emax false q e lz =
    if e' <=? 971 then S754_finite false m' e' else S754_infinity false.
Proof.
  intros [Hl Hu] He.
  assert (2 * Zpos m1000 + 2 < 2 ^ 54) as Hm by (by vm_compute).
  assert (0 < 2 ^ 52) as H52 by (by vm_compute).
  assert (2 ^ 53 = 2 * 2 ^ 52) as E53 by (by vm_compute).
  assert (2 ^ 54 = 2 * 2 ^ 53) as E54 by (by vm_compute).
  destruct q as [| p | p]; try lia.
  unfold binary_round_aux.
  destruct (Z.lt_ge_cases (Zpos p) (2 ^ 53)) as [Hq | Hq].
  - rewrite shr_fexp_53 by lia.
    rewrite shr_m_of_loc.
    pose proof (rne_bounds (Zpos p)
                  (loc_of_shr_record (shr_record_of_loc (Zpos p) lz))) as B.
    destruct (round_nearest_even _ _) as [| p1 | p1]; try lia.
    destruct (Z.lt_ge_cases (Zpos p1) (2 ^ 53)) as [Hq1 | Hq1].
    + rewrite shr_fexp_53 by lia. cbn. exists p1, e. auto.
    + assert (Zpos p1 = 2 ^ 53) as E by lia.
      rewrite shr_fexp_54 by lia. rewrite E.
      exists (4503599627370496)%positive, (e + 1). split; [auto |].
      reflexivity.
  - rewrite shr_fexp_54 by lia.
    destruct lz as [| c].
    + cbn [shr_record_of_loc].
      pose proof (shr_1_m p false false) as S1.
      destruct (shr_1 _) as [m r s]. cbn [shr_m] in *.
      pose proof (rne_bounds m (loc_of_shr_record
                     {| shr_m := m; shr_r := r; shr_s := s |})) as B.
      assert (2 ^ 52 <= m <= Zpos m1000) as Hm'.
      { subst m. rewrite Z.div2_div. split.
        - apply Z.div_le_lower_bound; lia.
        - apply Z.div_le_upper_bound; lia. }
      destruct (round_nearest_even _ _) as [| p1 | p1]; try lia.
      rewrite shr_fexp_53 by lia. cbn. exists p1, (e + 1). auto.
    + assert (exists r s, shr_record_of_loc (Zpos p) (loc_Inexact c) =
                          {| shr_m := Zpos p; shr_r := r; shr_s := s |})
        as (r0 & s0 & ->) by (destruct c; cbn; eauto).
      pose proof (shr_1_m p r0 s0) as S1.
      destruct (shr_1 _) as [m r s]. cbn [shr_m] in *.
      pose proof (rne_bounds m (loc_of_shr_record
                     {| shr_m := m; shr_r := r; shr_s := s |})) as B.
      assert (2 ^ 52 <= m <= Zpos m1000) as Hm'.
      { subst m. rewrite Z.div2_div. split.
        - apply Z.div_le_lower_bound; lia.
        - apply Z.div_le_upper_bound; lia. }
      destruct (round_nearest_even _ _) as [| p1 | p1]; try lia.
      rewrite shr_fexp_53 by lia. cbn. exists p1, (e + 1). auto.
Qed.

Lemma div_core_1000 m e :
  bounded prec emax m e = true ->
  exists q lz,
    SFdiv_core_binary prec emax (Zpos m1000) (-43) (Zpos m) e =
      (q, -43 - Zpos (digits2_pos m) - e, lz) /\
    2 ^ 52 <= q <= 2 * Zpos m1000.
Proof.
  intros [Hc He]%bounded_inv.
  pose proof (digits2_pos_bounds m) as [Bl Bu].
  set (d := Zpos (digits2_pos m)) in *.
  assert (0 < d) as Hd by (unfold d; lia).
  unfold SFdiv_core_binary. cbn [Zdigits2].
  change (Zpos (digits2_pos m1000)) with 53. fold d.
  unfold fexp, emin, prec, emax.
  replace (Z.min (Z.max (53 + -43 - (d + e) - 53) (3 - 1024 - 53)) (-43 - e))
    with (-43 - d - e) by lia.
  replace (-43 - e - (-43 - d - e)) with d by lia.
  unfold d at 1.
  rewrite Z.shiftl_mul_pow2 by lia. fold d.
  pose proof (Z.div_eucl_eq (Zpos m1000 * 2 ^ d) (Zpos m) ltac:(lia)) as Eq.
  pose proof (Z.mod_pos_bound (Zpos m1000 * 2 ^ d) (Zpos m) ltac:(lia)) as Bm.
  unfold Z.modulo in Bm.
  destruct (Z.div_eucl (Zpos m1000 * 2 ^ d) (Zpos m)) as [q r].
  exists q, (new_location (Zpos m) r). split; [done |].
  assert (2 ^ 52 <= Zpos m1000) as H52 by (by vm_compute).
  rewrite (pow2_step d) in * by done.
  assert (0 < 2 ^ (d - 1)) as Hp by (apply Z.pow_pos_nonneg; lia).
  split; nia.
Qed.

(** [1000 / x] for a positive finite [x] of the format. *)
Lemma div_1000_finite_positive m e :
  bounded prec emax m e = true ->
  exists m' e',
    e' <= -42 - Zpos (digits2_pos m) - e /\
    SFdiv prec emax (S754_finite false m1000 (-43)) (S754_finite false m e) =
    if e' <=? 971 then S754_finite false m' e' else S754_infinity false.
Proof.
  intros Hb. destruct (div_core_1000 m e Hb) as (q & lz & E & Hq).
  apply bounded_inv in Hb as [Hc He].
  pose proof (digits2_pos_bounds m) as _.
  assert (Zpos (digits2_pos m) <= 53) as Hd by lia.
  unfold SFdiv. rewrite E. cbn [xorb].
  destruct (round_aux_positive q (-43 - Zpos (digits2_pos m) - e) lz Hq
              ltac:(lia)) as (m' & e' & He' & ->).
  exists m', e'. split; [lia | done].
Qed.

End Quotient.

Lemma of_Z_1000 : of_Z 1000 = S754_finite false m1000 (-43).
Proof. by vm_compute. Qed.

Lemma scaled_1014 :
  scaled 1 (-1014) = S754_finite false 4503599627370496 (-1066).
Proof. by vm_compute. Qed.

Lemma ge_scaled_1014 m e :
  ge (S754_finite false m e) (scaled 1 (-1014)) = true -> (-1066 <= e)%Z.
Proof.
  rewrite scaled_1014. unfold ge, SFleb, SFcompare.
  destruct (Z.compare_spec (-1066) e); [lia | lia | done].
Qed.

(** C6, as the code has it: [setFramerate] sets the tick interval of the
    runtime to 1000/rate when the rate is above 0 and to 1000/60 when it is
    0, and a rate at or above 0 is one or the other.  For a finite rate at
    or above 0 that value is positive; it is finite as well when the rate
    is 0 or at least 2^-1014. *)
Theorem tick_interval_positive (fps : number) (w : World) :
  (gt fps zero = true ->
     currentStepTime (setFramerate fps w) = div (of_Z 1000) fps) /\
  (strict_eq fps zero = true ->
     currentStepTime (setFramerate fps w) = div (of_Z 1000) (of_Z 60)) /\
  (ge fps zero = true -> gt fps zero = true \/ strict_eq fps zero = true) /\
  (valid fps = true -> is_finite fps = true -> ge fps zero = true ->
     gt (currentStepTime (setFramerate fps w)) zero = true /\
     (strict_eq fps zero = true \/ ge fps (scaled 1 (-1014)) = true ->
        is_finite (currentStepTime (setFramerate fps w)) = true)).
Proof.
  rewrite setFramerate_reconfigured, restart_currentStepTime.
  cbn [reconfigured currentStepTime].
  split; [by intros ->%gt_zero_not_eq |]. split; [by intros -> |].
  split.
  { intros G. rewrite (ge_zero_gt _ G). by destruct (strict_eq fps zero); auto. }
  intros V F G.
  destruct fps as [s | s | | s m e]; try discriminate F.
  - (* the rate is 0 *)
    replace (strict_eq (S754_zero s) zero) with true by (by destruct s).
    split; by vm_compute.
  - (* the rate is a positive finite number *)
    destruct s; [discriminate G |].
    replace (strict_eq (S754_finite false m e) zero) with false by done.
    rewrite of_Z_1000.
    destruct (div_1000_finite_positive m e V) as (m' & e' & He' & E).
    unfold div. rewrite E. split.
    + by destruct (e' <=? 971)%Z.
    + intros [Z | L]; [discriminate Z |].
      apply ge_scaled_1014 in L.
      apply bounded_inv in V as [Hc _].
      replace (e' <=? 971)%Z with true; [done |].
      symmetry. apply Z.leb_le. lia.
Qed.

(** C6, as the spec has it, fails: the smallest positive number is a finite
    rate, and 1000 divided by it is [+Infinity]. *)
Lemma tick_interval_overflows :
  let fps := scaled 1 (-1074) in
  valid fps = true /\ is_finite fps = true /\ ge fps zero = true /\
  currentStepTime (setFramerate fps fresh) = S754_infinity false /\
  is_finite (currentStepTime (setFramerate fps fresh)) = false.
Proof. by vm_compute. Qed.

(** ** The theorems at work on concrete runs *)

Lemma quiet_safe : forall cb, Forall engine_safe (quiet cb).
Proof. intros cb. constructor. Qed.

Lemma busy_safe : forall cb, Forall engine_safe (busy cb).
Proof. intros []; repeat constructor. Qed.

Lemma reachable_run behaviour acts w :
  reachable behaviour w -> legal_run behaviour acts w = true ->
  reachable behaviour (run behaviour acts w).
Proof.
  revert w. induction acts as [| a acts IH]; intros w Hr Hl; [done |].
  cbn in Hl. apply andb_true_iff in Hl as [Ha Hl].
  cbn. apply IH; [| done]. apply reach_exec; [done |].
  destruct a as [[] | | |]; cbn in *; trivial.
  by apply negb_true_iff.
Qed.

Ltac computed := vm_compute; reflexivity.

Ltac from_run :=
  apply reachable_run; [constructor | computed].

Lemma start_mode_table_witness :
  let w := run quiet [Do (SetFramerate (of_Z 30)); Do (SetInterpolation true)]
               fresh in
  running (loop w) = false /\
  tables (host (start w)) =
    {| intervals := {[ 1 := (Bound_step, div (of_Z 1000) (of_Z 30)) ]};
       frames := [(1, Handle 0 Bound_renderInterpolatedPositions)] |}.
Proof.
  set (w := run quiet _ fresh). cbn zeta.
  assert (reachable quiet w) as Hr by from_run.
  assert (running (loop w) = false) as R by computed.
  assert (gt (framerate (loop w)) zero = true) as G by computed.
  assert (interpolation (loop w) = true) as I by computed.
  destruct (start_mode_table quiet quiet_safe w Hr R) as (_ & _ & _ & H).
  destruct (H G I) as [E _]. split; [exact R |].
  rewrite E. computed.
Defined.

Lemma no_double_subscription_witness :
  let acts := [Do (SetFramerate zero); Refresh; Do (SetInterpolation true);
               Tick 1; Refresh; Fire 3; Do (SetFramerate (of_Z 60)); Tick 3] in
  Forall reconfigures acts /\
  at_most_one (tables (host (run busy acts (start fresh)))) /\
  Forall at_most_one (history (host (run busy acts (start fresh)))) /\
  recorded (host (run busy acts (start fresh))).
Proof.
  intros acts.
  assert (Forall reconfigures acts) as H by (repeat constructor).
  split; [exact H |].
  exact (proj2 (no_double_subscription busy busy_safe) acts H).
Defined.

Lemma stop_effect_witness :
  let w := run quiet [Do (SetInterpolation true); Do Start; Refresh] fresh in
  running (loop w) = true /\
  running (loop (stop w)) = false /\
  no_sources (tables (host (stop w))) /\
  erase (stop (stop w)) = erase (stop w).
Proof.
  set (w := run quiet _ fresh). cbn zeta.
  assert (reachable quiet w) as Hr by from_run.
  destruct (stop_effect w) as (R & _ & _ & _ & _ & _ & T & _ & _ & H).
  destruct (H quiet quiet_safe Hr) as [N _].
  split; [computed |]. split; [exact R |]. split; [exact N | exact T].
Defined.

Lemma interpolation_gating_witness :
  let w := run quiet [Do (SetInterpolation true); Do (SetFramerate zero);
                      Do Start; Refresh] fresh in
  ge (framerate (loop w)) zero = true /\
  interpolation_live w = false /\
  interpolation_live (setFramerate (of_Z 30) w) = true.
Proof.
  set (w := run quiet _ fresh). cbn zeta.
  assert (reachable quiet w) as Hr by from_run.
  assert (ge (framerate (loop w)) zero = true) as G by computed.
  assert (running (loop w) = true) as R by computed.
  assert (interpolation (loop w) = true) as I by computed.
  assert (gt (of_Z 30) zero = true) as G' by computed.
  destruct (interpolation_gating quiet quiet_safe w Hr G) as (H & _ & _ & H').
  split; [exact G |]. split; [| exact (H' (of_Z 30) R I G')].
  rewrite H. computed.
Defined.

Lemma restart_keeps_callbacks_witness :
  let w := run quiet [Do (SetInterpolation true); Do Start] fresh in
  let w' := do_call (SetFramerate zero) w in
  running (loop w) = true /\
  stepCallback (loop w') = stepCallback (loop fresh) /\
  interpolationCallback (loop w') = interpolationCallback (loop fresh).
Proof.
  set (w := run quiet _ fresh). cbn zeta.
  assert (reachable quiet w) as Hr by from_run.
  assert (running (loop w) = true) as R by computed.
  destruct (restart_keeps_callbacks quiet quiet_safe w (SetFramerate zero)
              Hr R I) as (H & H' & _).
  split; [exact R |]. split; [exact H | exact H'].
Defined.

Lemma start_while_running_leaks_witness :
  let w := run quiet [Do Start] fresh in
  running (loop w) = true /\
  sources Bound_step (tables (host (start w))) = 2 /\
  1 <= sources Bound_step
         (tables (host (stop (do_calls [SetFramerate zero; Stop; Start]
                                       (start w))))).
Proof.
  set (w := run quiet _ fresh). cbn zeta.
  assert (reachable quiet w) as Hr by from_run.
  assert (running (loop w) = true) as R by computed.
  destruct (start_while_running_leaks quiet quiet_safe w Hr R)
    as (_ & H & _ & _ & H').
  split; [exact R |]. split; [exact H |].
  exact (H' [SetFramerate zero; Stop; Start]).
Defined.

Lemma display_sync_adapter_witness :
  frames (tables (host fresh)) = [] /\
  invoked (host (refreshes once 3
     (with_host (snd (animationFrameWrapper (Fn 2) (host fresh))) fresh))) =
    [Fn 2; Fn 2; Fn 2] /\
  invoked (host (refreshes once 3
     (with_host (snd (animationFrameWrapper (Fn 1) (host fresh))) fresh))) =
    [Fn 1].
Proof.
  assert (frames (tables (host fresh)) = []) as F by computed.
  split; [exact F |]. split.
  - destruct (display_sync_adapter once (Fn 2) fresh F) as (H & _).
    exact (proj1 (H eq_refl 3)).
  - destruct (display_sync_adapter once (Fn 1) fresh F) as (_ & _ & H & _).
    exact (proj1 (H eq_refl 2)).
Defined.

Lemma tick_interval_positive_witness :
  valid (of_Z 45) = true /\ is_finite (of_Z 45) = true /\
  ge (of_Z 45) zero = true /\
  currentStepTime (setFramerate (of_Z 45) fresh) =
    div (of_Z 1000) (of_Z 45) /\
  gt (currentStepTime (setFramerate (of_Z 45) fresh)) zero = true /\
  is_finite (currentStepTime (setFramerate (of_Z 45) fresh)) = true.
Proof.
  assert (valid (of_Z 45) = true) as V by computed.
  assert (is_finite (of_Z 45) = true) as F by computed.
  assert (ge (of_Z 45) zero = true) as G by computed.
  assert (gt (of_Z 45) zero = true) as G' by computed.
  assert (ge (of_Z 45) (scaled 1 (-1014)) = true) as L by computed.
  destruct (tick_interval_positive (of_Z 45) fresh) as (H & _ & _ & H').
  destruct (H' V F G) as [P Q].
  split; [exact V |]. split; [exact F |]. split; [exact G |].
  split; [exact (H G') |]. split; [exact P | exact (Q (or_intror L))].
Defined.

(** * Further properties of the frame loop *)

(** ** The methods never run a callback themselves *)

Lemma do_call_invoked c w : invoked (host (do_call c w)) = invoked (host w).
Proof.
  apply (kept_by_do_call (fun h => invoked h = invoked (host w))); trivial.
  - intros [i |] h H; done.
  - intros l h H. unfold cancel. by destruct (read_id l h).
Qed.

Lemma exec_cmds_invoked cs w :
  invoked (host (exec_cmds cs w)) = invoked (host w).
Proof.
  apply (kept_by_exec_cmds (fun h => invoked h = invoked (host w))); trivial.
  - intros [i |] h H; done.
  - intros l h H. unfold cancel. by destruct (read_id l h).
Qed.

Section Delivery.

Variable behaviour : callback -> list cmd.

Lemma invoke_invoked cb w :
  invoked (host (invoke behaviour cb w)) = cb :: invoked (host w).
Proof. unfold invoke. by rewrite exec_cmds_invoked. Qed.

Lemma fire_frame_invoked i w :
  invoked (host (fire_frame behaviour i w)) =
  match find (pending i) (frames (tables (host w))) with
  | Some (_, f) => h_callback f :: invoked (host w)
  | None => invoked (host w)
  end.
Proof.
  unfold fire_frame.
  destruct (find (pending i) (frames (tables (host w)))) as [[j f] |]; [| done].
  unfold handle. by rewrite invoke_invoked.
Qed.

Lemma refresh_single i f w :
  frames (tables (host w)) = [(i, f)] ->
  invoked (host (refresh behaviour w)) = h_callback f :: invoked (host w).
Proof.
  intros H. unfold refresh. rewrite H. cbn [map fst fold_left].
  rewrite fire_frame_invoked, H. cbn. unfold pending; cbn.
  by rewrite Nat.eqb_refl.
Qed.

Lemma tick_invoked i w :
  invoked (host (tick behaviour i w)) =
  match intervals (tables (host w)) !! i with
  | Some (cb, _) => cb :: invoked (host w)
  | None => invoked (host w)
  end.
Proof.
  unfold tick. destruct (_ !! _) as [[cb ms] |]; [| done].
  apply invoke_invoked.
Qed.

Hypothesis engine : forall cb, Forall engine_safe (behaviour cb).

(** X1: as long as [start] is only called on a stopped loop, a refresh of
    the display runs the step callback once when the loop runs at rate 0,
    the render callback once when it runs at another rate with
    interpolation on, and nothing otherwise; a timer coming due runs the
    step callback once when it is the timer in [_stepInterval] of a loop
    running at a rate other than 0, and nothing otherwise; and the methods
    themselves run no callback. *)
Theorem callbacks_delivered (w : World) :
  reachable behaviour w ->
  invoked (host (refresh behaviour w)) =
    due_on_refresh (loop w) ++ invoked (host w) /\
  (forall i, invoked (host (tick behaviour i w)) =
             due_on_tick i (loop w) ++ invoked (host w)) /\
  (forall c, invoked (host (do_call c w)) = invoked (host w)).
Proof.
  intros Hr. pose proof (reachable_consistent _ engine w Hr) as H.
  split; [| split; [| intros c; apply do_call_invoked]].
  - destruct H as ([Bs Bi] & M & _). unfold mode_table in M.
    unfold due_on_refresh. rewrite Bs, Bi.
    destruct (running (loop w)).
    + destruct (strict_eq (framerate (loop w)) zero).
      * destruct M as (_ & _ & l & i & _ & F & _).
        by rewrite (refresh_single _ _ _ F).
      * destruct M as (_ & _ & M). destruct (interpolation (loop w)).
        -- destruct M as (l & i & _ & F & _).
           by rewrite (refresh_single _ _ _ F).
        -- destruct M as [_ F]. unfold refresh. by rewrite F.
    + destruct M as ([_ F] & _). unfold refresh. by rewrite F.
  - intros i. rewrite tick_invoked.
    destruct H as ([Bs Bi] & M & _). unfold mode_table in M.
    unfold due_on_tick. rewrite Bs.
    destruct (running (loop w)).
    + destruct (strict_eq (framerate (loop w)) zero).
      * destruct M as (-> & _). by rewrite lookup_empty.
      * destruct M as ((i0 & -> & -> & _) & _). cbn.
        destruct (decide (i0 = i)) as [-> | N].
        -- rewrite lookup_singleton_eq. by rewrite bool_decide_eq_true_2.
        -- rewrite lookup_singleton_ne by done.
           rewrite bool_decide_eq_false_2; [done | congruence].
    + destruct M as ([-> _] & _). by rewrite lookup_empty.
Qed.

Lemma nothing_to_run (w : World) (events : list action) :
  no_sources (tables (host w)) -> Forall host_event events ->
  run behaviour events w = w.
Proof.
  intros [Hi Hf] He.
  induction He as [| a events Ha _ IH]; [done |].
  cbn [run fold_left]. fold (run behaviour events (exec behaviour a w)).
  replace (exec behaviour a w) with w; [exact IH |].
  destruct a as [c | | i | i]; [done | | |]; cbn.
  - unfold refresh. by rewrite Hf.
  - unfold fire_frame. by rewrite Hf.
  - unfold tick. by rewrite Hi, lookup_empty.
Qed.

(** X2: once the loop is stopped (and [start] was only ever called on a
    stopped loop), the host has nothing of it left to run: refreshes,
    requests and timers coming due, in any number and order, change nothing
    and run no callback. *)
Theorem stopped_loop_is_inert (w : World) (events : list action) :
  reachable behaviour w -> running (loop w) = false ->
  Forall host_event events ->
  run behaviour events w = w.
Proof.
  intros Hr R He. apply nothing_to_run; [| done].
  by destruct (consistent_stopped w (reachable_consistent _ engine w Hr) R).
Qed.

(** X3: as long as [start] is only called on a stopped loop, the host holds
    at every instant exactly what the mode table prescribes for the
    configuration stored in the loop, and the fields of the loop point at
    it: one source of the step callback while the loop runs and none while
    it is stopped; one source of the render callback while it runs at a
    rate other than 0 with interpolation on, and none otherwise. *)
Theorem sources_follow_configuration (w : World) :
  reachable behaviour w ->
  sources Bound_step (tables (host w)) = step_sources_due (loop w) /\
  sources Bound_renderInterpolatedPositions (tables (host w)) =
    interpolation_sources_due (loop w) /\
  mode_table w.
Proof.
  intros Hr. pose proof (reachable_consistent _ engine w Hr) as H.
  split; [| split; [| apply H]]; revert H;
    unfold step_sources_due, interpolation_sources_due; open_world w;
    intros [[-> ->] [Hm Hh]]; (destruct r; cbn in Hm;
    [ destruct (strict_eq fr zero) eqn:E;
      [ destruct Hm as (-> & -> & l & i & -> & -> & Hc); count_sources
      | destruct Hm as ((i & -> & -> & Hi) & -> & Hm); destruct ip;
        [ destruct Hm as (l & j & -> & -> & Hc); count_sources
        | destruct Hm as (-> & ->); count_sources ] ]
    | destruct Hm as ((-> & ->) & -> & ->); count_sources ]).
Qed.

End Delivery.

(** ** Properties of the loop kept by every event

    A property of the state that the four methods keep, and that does not
    depend on the host, is kept by the callbacks and by the events. *)

Section WorldInvariant.

Variable Q : World -> Prop.
Hypothesis Q_call : forall c w, Q w -> Q (do_call c w).
Hypothesis Q_host : forall h w, Q w -> Q (with_host h w).

Variable behaviour : callback -> list cmd.

Lemma held_by_exec_cmds cs w : Q w -> Q (exec_cmds cs w).
Proof.
  revert w. induction cs as [| c cs IH]; intros w H; [done |].
  cbn. apply IH. destruct c as [m | l]; cbn; auto.
Qed.

Lemma held_by_invoke cb w : Q w -> Q (invoke behaviour cb w).
Proof. intros H. unfold invoke. by apply held_by_exec_cmds, Q_host. Qed.

Lemma held_by_fire_frame i w : Q w -> Q (fire_frame behaviour i w).
Proof.
  intros H. unfold fire_frame.
  destruct (find (pending i) (frames (tables (host w)))) as [[j f] |];
    [| done].
  unfold handle. by apply held_by_invoke, Q_host, Q_host.
Qed.

Lemma held_by_refresh w : Q w -> Q (refresh behaviour w).
Proof.
  unfold refresh. generalize (map fst (frames (tables (host w)))).
  intros l. revert w. induction l as [| i l IH]; intros w H; [done |].
  cbn. by apply IH, held_by_fire_frame.
Qed.

Lemma held_by_exec a w : Q w -> Q (exec behaviour a w).
Proof.
  intros H. destruct a; cbn.
  - by apply Q_call.
  - by apply held_by_refresh.
  - by apply held_by_fire_frame.
  - unfold tick. destruct (_ !! _) as [[cb ms] |]; [| done].
    by apply held_by_invoke.
Qed.

Lemma held_by_run acts w : Q w -> Q (run behaviour acts w).
Proof.
  revert w. induction acts as [| a acts IH]; intros w H; [done |].
  cbn. by apply IH, held_by_exec.
Qed.

End WorldInvariant.

(** ** [start], guarded or not *)

Lemma start_fields w :
  framerate (loop (start w)) = framerate (loop w) /\
  interpolation (loop (start w)) = interpolation (loop w) /\
  stepCallback (loop (start w)) = stepCallback (loop w) /\
  interpolationCallback (loop (start w)) = interpolationCallback (loop w) /\
  currentStepTime (start w) = currentStepTime w /\
  running (loop (start w)) = true.
Proof.
  destruct w as [h t [r fr ip sc ic si ia sa]]. unfold start; cbn.
  by destruct (strict_eq fr zero), ip.
Qed.

Lemma stop_fields w :
  framerate (loop (stop w)) = framerate (loop w) /\
  interpolation (loop (stop w)) = interpolation (loop w) /\
  stepCallback (loop (stop w)) = stepCallback (loop w) /\
  interpolationCallback (loop (stop w)) = interpolationCallback (loop w) /\
  currentStepTime (stop w) = currentStepTime w.
Proof. rewrite stop_loop, stop_currentStepTime. by destruct (loop w). Qed.

Lemma restart_callbacks w :
  stepCallback (loop (_restart w)) = stepCallback (loop w) /\
  interpolationCallback (loop (_restart w)) = interpolationCallback (loop w).
Proof.
  unfold _restart. destruct (running (loop w)); [| done].
  destruct (start_fields (stop w)) as (_ & _ & -> & -> & _).
  destruct (stop_fields w) as (_ & _ & -> & -> & _). done.
Qed.

Lemma do_call_bound c w : bound (loop w) -> bound (loop (do_call c w)).
Proof.
  unfold bound. intros [Bs Bi]. destruct c; cbn [do_call].
  - destruct (start_fields w) as (_ & _ & -> & -> & _). done.
  - destruct (stop_fields w) as (_ & _ & -> & -> & _). done.
  - rewrite setFramerate_reconfigured.
    destruct (restart_callbacks
                (reconfigured fps (interpolation (loop w))
                   (if strict_eq fps zero then div (of_Z 1000) (of_Z 60)
                    else div (of_Z 1000) fps) w)) as [-> ->].
    by destruct w as [h t []].
  - rewrite setInterpolation_reconfigured.
    destruct (restart_callbacks
                (reconfigured (framerate (loop w)) b (currentStepTime w) w))
      as [-> ->].
    by destruct w as [h t []].
Qed.

Lemma run_bound behaviour acts : bound (loop (run behaviour acts fresh)).
Proof.
  apply (held_by_run (fun w => bound (loop w))).
  - apply do_call_bound.
  - done.
  - done.
Qed.

Lemma timers_known_setInterval cb ms h :
  timers_known h -> timers_known (snd (setInterval cb ms h)).
Proof.
  intros H i v. cbn.
  intros [[<- _] | [_ E]]%lookup_insert_Some; [lia |].
  apply H in E. lia.
Qed.

Lemma timers_known_same h h' :
  intervals (tables h') = intervals (tables h) ->
  next_interval h' = next_interval h -> timers_known h -> timers_known h'.
Proof. unfold timers_known. by intros -> ->. Qed.

Lemma timers_known_clearInterval i h :
  timers_known h -> timers_known (clearInterval i h).
Proof.
  destruct i as [i |]; [| done]. intros H j v. cbn.
  intros [_ E]%lookup_delete_Some. by apply H in E.
Qed.

Lemma timers_known_cancel l h : timers_known h -> timers_known (cancel l h).
Proof. unfold cancel. destruct (read_id l h); by apply timers_known_same. Qed.

Lemma run_timers_known behaviour acts :
  timers_known (host (run behaviour acts fresh)).
Proof.
  apply kept_by_run.
  - apply timers_known_setInterval.
  - apply timers_known_clearInterval.
  - intros cb h. by apply timers_known_same.
  - apply timers_known_cancel.
  - intros i h. by apply timers_known_same.
  - intros f h. by apply timers_known_same.
  - intros cb h. by apply timers_known_same.
  - intros i v. by vm_compute.
Qed.

Lemma timers_insert_count cb i (v : callback * number) ints :
  ints !! i = None ->
  length (List.filter (fun kv : nat * (callback * number) =>
                         bool_decide (kv.2.1 = cb))
                      (map_to_list (<[ i := v ]> ints))) =
  (if decide (v.1 = cb) then 1 else 0) +
  length (List.filter (fun kv : nat * (callback * number) =>
                         bool_decide (kv.2.1 = cb))
                      (map_to_list ints)).
Proof.
  intros N.
  rewrite (filter_length_perm _ _ ((i, v) :: map_to_list ints))
    by (by apply map_to_list_insert).
  cbn. unfold bool_decide. by destruct (decide_rel eq v.1 cb).
Qed.

Lemma start_adds w :
  bound (loop w) -> timers_known (host w) ->
  sources Bound_step (tables (host (start w))) =
    S (sources Bound_step (tables (host w))) /\
  sources Bound_renderInterpolatedPositions (tables (host (start w))) =
    sources Bound_renderInterpolatedPositions (tables (host w)) +
    (if negb (strict_eq (framerate (loop w)) zero) && interpolation (loop w)
     then 1 else 0).
Proof.
  intros [Bs Bi] K.
  assert (intervals (tables (host w)) !! next_interval (host w) = None) as N.
  { destruct (_ !! _) as [v |] eqn:E; [| done]. apply K in E. lia. }
  destruct w as [[[ints frs] ni nf cs inv hist] t [r fr ip sc ic si ia sa]].
  cbn in *. subst. unfold start, sources, timer_sources, sync_sources; cbn.
  destruct (strict_eq fr zero); cbn.
  - rewrite !List.filter_app, !length_app. cbn.
    repeat case_bool_decide; try congruence; cbn; lia.
  - destruct ip; cbn.
    + rewrite !(timers_insert_count _ _ _ _ N).
      rewrite !List.filter_app, !length_app. cbn.
      repeat case_bool_decide; repeat case_decide; try congruence; cbn; lia.
    + rewrite !(timers_insert_count _ _ _ _ N). cbn.
      repeat case_decide; try congruence; cbn; lia.
Qed.

(** X4: [start] has no guard.  In any state whatever reached from a new
    loop (any calls of the methods, any events, callbacks that do
    anything), [start] adds exactly one source of the step callback to
    those the host already holds, and one source of the render callback
    when the rate is not 0 and interpolation is on; it cancels none.  So
    [n] calls of [start] in a row leave [n] more step sources. *)
Theorem start_adds_a_source behaviour (acts : list action) :
  let w := run behaviour acts fresh in
  sources Bound_step (tables (host (start w))) =
    S (sources Bound_step (tables (host w))) /\
  sources Bound_renderInterpolatedPositions (tables (host (start w))) =
    sources Bound_renderInterpolatedPositions (tables (host w)) +
    (if negb (strict_eq (framerate (loop w)) zero) && interpolation (loop w)
     then 1 else 0) /\
  (forall n,
     sources Bound_step (tables (host (Nat.iter n start w))) =
     n + sources Bound_step (tables (host w))).
Proof.
  cbn zeta.
  destruct (start_adds _ (run_bound behaviour acts)
              (run_timers_known behaviour acts)) as [A B].
  split; [exact A |]. split; [exact B |].
  intros n. induction n as [| n IH]; [done |].
  rewrite Nat.iter_succ.
  assert (Nat.iter n start (run behaviour acts fresh) =
          run behaviour (acts ++ repeat (Do Start) n) fresh) as E.
  { unfold run. rewrite fold_left_app. fold (run behaviour acts fresh).
    generalize (run behaviour acts fresh). clear. intros w. revert w.
    induction n as [| n IH]; intros w; [done |].
    rewrite Nat.iter_succ_r. cbn [repeat fold_left exec do_call]. apply IH. }
  destruct (start_adds _ (run_bound behaviour (acts ++ repeat (Do Start) n))
              (run_timers_known behaviour (acts ++ repeat (Do Start) n)))
    as [A' _].
  rewrite <- E in A'. rewrite A', IH. done.
Qed.

(** ** The tick interval in every state *)

Lemma do_call_tick_interval c w :
  currentStepTime w = tick_interval (framerate (loop w)) ->
  currentStepTime (do_call c w) =
  tick_interval (framerate (loop (do_call c w))).
Proof.
  intros H. destruct c; cbn [do_call].
  - destruct (start_fields w) as (-> & _ & _ & _ & -> & _). done.
  - destruct (stop_fields w) as (-> & _ & _ & _ & ->). done.
  - rewrite setFramerate_reconfigured, restart_currentStepTime,
      restart_framerate.
    by destruct w as [h t []].
  - rewrite setInterpolation_reconfigured, restart_currentStepTime,
      restart_framerate.
    by destruct w as [h t []].
Qed.

(** X5: whatever is done to a new loop (any calls of the methods, any
    events, callbacks that do anything), the tick interval of the runtime
    is the one computed from the stored rate: 1000/60 at rate 0, 1000/rate
    otherwise.  When [start] was only called on a stopped loop and the loop
    runs at a rate other than 0, the one timer of the host has that tick
    interval as its period. *)
Theorem tick_interval_tracks_rate behaviour (acts : list action) :
  let w := run behaviour acts fresh in
  currentStepTime w = tick_interval (framerate (loop w)) /\
  ((forall cb, Forall engine_safe (behaviour cb)) ->
   legal_run behaviour acts fresh = true ->
   running (loop w) = true ->
   strict_eq (framerate (loop w)) zero = false ->
   exists i, _stepInterval (loop w) = Some i /\
             intervals (tables (host w)) =
               {[ i := (Bound_step, currentStepTime w) ]}).
Proof.
  cbn zeta.
  assert (currentStepTime (run behaviour acts fresh) =
          tick_interval (framerate (loop (run behaviour acts fresh)))) as T.
  { apply (held_by_run
             (fun w => currentStepTime w = tick_interval (framerate (loop w)))).
    - apply do_call_tick_interval.
    - done.
    - by vm_compute. }
  split; [exact T |]. intros engine L R E.
  assert (reachable behaviour (run behaviour acts fresh)) as Hr
    by (apply reachable_run; [constructor | done]).
  destruct (reachable_consistent _ engine _ Hr) as (_ & M & _).
  unfold mode_table in M. rewrite R, E in M.
  destruct M as ((i & Hi & Ht & _) & _). exists i. split; [done |].
  rewrite T. unfold tick_interval. by rewrite E.
Qed.

(** ** [setInterpolation] *)

(** X6: [setInterpolation b] stores the flag and leaves the rate, the tick
    interval and the running state as they are.  On a running loop it is
    then [stop] followed by [start]; on a stopped loop it does nothing
    more, and the host is not called.  On a running loop on which [start]
    was only called while stopped, a source of the render callback is live
    afterwards exactly when [b] is true and the rate is not 0. *)
Theorem setInterpolation_effect (b : bool) (w : World) :
  let stored := reconfigured (framerate (loop w)) b (currentStepTime w) w in
  interpolation (loop (setInterpolation b w)) = b /\
  framerate (loop (setInterpolation b w)) = framerate (loop w) /\
  currentStepTime (setInterpolation b w) = currentStepTime w /\
  running (loop (setInterpolation b w)) = running (loop w) /\
  (running (loop w) = true -> setInterpolation b w = start (stop stored)) /\
  (running (loop w) = false ->
     setInterpolation b w = stored /\ host (setInterpolation b w) = host w) /\
  (forall behaviour,
     (forall cb, Forall engine_safe (behaviour cb)) ->
     reachable behaviour w -> running (loop w) = true ->
     interpolation_live (setInterpolation b w) =
       negb (strict_eq (framerate (loop w)) zero) && b).
Proof.
  cbn zeta.
  assert (interpolation (loop (setInterpolation b w)) = b /\
          framerate (loop (setInterpolation b w)) = framerate (loop w) /\
          running (loop (setInterpolation b w)) = running (loop w))
    as (I & F & R).
  { rewrite setInterpolation_reconfigured, restart_interpolation,
      restart_framerate, restart_running.
    by destruct w as [h t []]. }
  split; [exact I |]. split; [exact F |].
  split.
  { rewrite setInterpolation_reconfigured, restart_currentStepTime.
    by destruct w as [h t []]. }
  split; [exact R |].
  split; [| split].
  - intros Hr. rewrite setInterpolation_reconfigured. unfold _restart.
    replace (running (loop (reconfigured (framerate (loop w)) b
                              (currentStepTime w) w)))
      with (running (loop w)) by (by destruct w as [h t []]).
    by rewrite Hr.
  - intros Hr. rewrite setInterpolation_reconfigured. unfold _restart.
    replace (running (loop (reconfigured (framerate (loop w)) b
                              (currentStepTime w) w)))
      with (running (loop w)) by (by destruct w as [h t []]).
    by rewrite Hr.
  - intros behaviour engine Hr Hrun.
    assert (consistent (setInterpolation b w)) as H.
    { apply (do_call_consistent (SetInterpolation b));
        [by eapply reachable_consistent | done]. }
    rewrite (consistent_interpolation_live _ H), I, F, R, Hrun. done.
Qed.

(** ** Rates outside the contract *)

Lemma round_aux_neg s q e l :
  binary_round_aux prec emax (negb s) q e l =
  neg (binary_round_aux prec emax s q e l).
Proof.
  unfold binary_round_aux.
  destruct (shr_fexp prec emax q e l) as [r1 e1].
  destruct (shr_fexp prec emax _ e1 loc_Exact) as [r2 e2].
  destruct (shr_m r2); [done | | done].
  unfold neg. by destruct (e2 <=? emax - prec)%Z.
Qed.

Lemma div_neg x y : div x (neg y) = neg (div x y).
Proof.
  unfold div, neg.
  destruct x as [sx | sx | | sx mx ex], y as [sy | sy | | sy my ey];
    cbn [SFdiv SFopp]; try done;
    try (by destruct sx, sy).
  destruct (SFdiv_core_binary _ _ _ _ _ _) as [[q e] l].
  replace (xorb sx (negb sy)) with (negb (xorb sx sy)) by (by destruct sx, sy).
  apply round_aux_neg.
Qed.

Lemma strict_eq_neg x : strict_eq (neg x) zero = strict_eq x zero.
Proof. by destruct x as [[] | [] | | [] m e]. Qed.

(** X7: [setFramerate] checks nothing but [fps === 0].  A negative rate
    gives a negative tick interval, the opposite of that of the positive
    rate; [NaN] gives [NaN]; an infinite rate gives a tick interval of 0;
    and [-0] counts as 0, so that the tick interval is 1000/60. *)
Theorem rate_is_not_checked (fps : number) (w : World) :
  (strict_eq fps zero = false ->
     currentStepTime (setFramerate (neg fps) w) =
     neg (currentStepTime (setFramerate fps w))) /\
  (valid fps = true -> is_finite fps = true -> less fps zero = true ->
     framerate (loop (setFramerate fps w)) = fps /\
     less (currentStepTime (setFramerate fps w)) zero = true) /\
  currentStepTime (setFramerate S754_nan w) = S754_nan /\
  currentStepTime (setFramerate (S754_infinity false) w) = zero /\
  currentStepTime (setFramerate (S754_infinity true) w) = neg zero /\
  currentStepTime (setFramerate (neg zero) w) = div (of_Z 1000) (of_Z 60).
Proof.
  assert (forall x, currentStepTime (setFramerate x w) = tick_interval x) as T.
  { intros x. by rewrite setFramerate_reconfigured, restart_currentStepTime. }
  rewrite !T. split; [| split; [| by vm_compute]].
  - intros E. unfold tick_interval. rewrite strict_eq_neg, E. apply div_neg.
  - intros V F L.
    split.
    { rewrite setFramerate_reconfigured, restart_framerate.
      by destruct w as [h t []]. }
    destruct fps as [s | s | | s m e]; try discriminate F.
    + by destruct s.
    + destruct s; [| discriminate L].
      unfold tick_interval.
      replace (strict_eq (S754_finite true m e) zero) with false by done.
      change (S754_finite true m e) with (neg (S754_finite false m e)).
      rewrite div_neg, of_Z_1000.
      destruct (div_1000_finite_positive m e V) as (m' & e' & _ & E).
      unfold div. rewrite E. by destruct (e' <=? 971)%Z.
Qed.

(** ** [stop] called by the step callback *)

Lemma exec_cmds_last cs c w :
  exec_cmds (cs ++ [c]) w = exec_cmd c (exec_cmds cs w).
Proof. unfold exec_cmds. by rewrite fold_left_app. Qed.

Section StopFromStep.

Variable behaviour : callback -> list cmd.
Hypothesis engine : forall cb, Forall engine_safe (behaviour cb).

(** The event that runs the step callback of a running loop: a refresh at
    rate 0, its timer coming due otherwise. *)
Lemma step_event w :
  consistent w -> running (loop w) = true ->
  exists a, host_event a /\
    exec behaviour a w =
    invoke behaviour Bound_step
      (with_host
         (if strict_eq (framerate (loop w)) zero
          then match frames (tables (host w)) with
               | (i, f) :: _ => resubmit f (take_frame i (host w))
               | [] => host w
               end
          else host w) w) /\
    a = if strict_eq (framerate (loop w)) zero then Refresh
        else match _stepInterval (loop w) with
             | Some i => Tick i
             | None => Refresh
             end.
Proof.
  intros (_ & M & _) R. unfold mode_table in M. rewrite R in M.
  destruct (strict_eq (framerate (loop w)) zero).
  - destruct M as (_ & _ & l & i & _ & F & _).
    exists Refresh. split; [done |]. split; [| done].
    cbn [exec]. unfold refresh. rewrite F. cbn [map fst fold_left].
    unfold fire_frame. rewrite F. cbn [find]. unfold pending at 1.
    cbn [fst]. by rewrite Nat.eqb_refl.
  - destruct M as ((i & Hi & Ht & _) & _). rewrite Hi.
    exists (Tick i). split; [done |]. split; [| done].
    cbn [exec]. unfold tick. rewrite Ht, lookup_singleton_eq.
    by destruct w as [h t o].
Qed.

(** X8: the step callback may end the loop itself.  On a running loop (on
    which [start] was only called while stopped) whose step callback ends
    with a call of [stop], the event that runs the step callback (a refresh
    at rate 0, the timer otherwise) runs it once and leaves the loop stopped
    with nothing scheduled, although at rate 0 the wrapper has requested the
    next frame before the callback runs; whatever the host does afterwards
    changes nothing. *)
Theorem stop_from_step_callback (w : World) (cs : list cmd) :
  reachable behaviour w -> running (loop w) = true ->
  behaviour Bound_step = cs ++ [Method Stop] ->
  let a := if strict_eq (framerate (loop w)) zero then Refresh
           else match _stepInterval (loop w) with
                | Some i => Tick i
                | None => Refresh
                end in
  let w' := exec behaviour a w in
  invoked (host w') = Bound_step :: invoked (host w) /\
  running (loop w') = false /\
  no_sources (tables (host w')) /\
  (forall events, Forall host_event events ->
     run behaviour events w' = w').
Proof.
  intros Hr R B. cbn zeta.
  pose proof (reachable_consistent _ engine w Hr) as H.
  destruct (step_event w H R) as (a & Ha & E & ->).
  set (a := if strict_eq _ _ then _ else _) in *.
  assert (consistent (exec behaviour a w)) as H'.
  { apply exec_consistent; [done | done |]. by destruct a as [[] | | |]. }
  assert (running (loop (exec behaviour a w)) = false) as R'.
  { rewrite E. unfold invoke. rewrite B, exec_cmds_last. cbn [exec_cmd do_call].
    apply stop_cancels. }
  destruct (consistent_stopped _ H' R') as [_ N].
  split; [| split; [exact R' | split; [exact N |]]].
  - rewrite E, invoke_invoked. cbn [host with_host].
    destruct (strict_eq _ _); [| done].
    by destruct (frames (tables (host w))) as [| [i f] ?].
  - intros events He. by apply nothing_to_run.
Qed.

End StopFromStep.

(** ** Several wrappers at once *)

Lemma existsb_filter_other i j (fs : list (nat * closure)) :
  i <> j ->
  existsb (pending i) (List.filter (fun e => negb (pending j e)) fs) =
  existsb (pending i) fs.
Proof.
  intros N. induction fs as [| [k f] fs IH]; [done |].
  cbn [List.filter existsb].
  destruct (pending j (k, f)) eqn:Pj; cbn [negb existsb]; rewrite IH; [| done].
  unfold pending in *. cbn [fst] in *. apply Nat.eqb_eq in Pj. subst k.
  destruct (Nat.eqb_spec j i) as [E | _]; [congruence | done].
Qed.

Lemma run_tidy behaviour acts : tidy (host (run behaviour acts fresh)).
Proof.
  apply kept_by_run;
    auto using tidy_setInterval, tidy_clearInterval, tidy_wrapper, tidy_cancel,
               tidy_take_frame, tidy_resubmit, tidy_log_call, tidy_boot.
Qed.

(** X9: each wrapper has its own [id] variable, so that [cancel] is
    private to its wrapper.  In any state reached from a new loop (any
    calls, any events), cancelling one wrapper makes that wrapper dead and
    leaves every other wrapper as live or dead as it was, and the timers as
    they were. *)
Theorem cancel_is_private behaviour (acts : list action) (l l' : loc) :
  l <> l' ->
  let h := host (run behaviour acts fresh) in
  wrapper_live l (cancel l h) = false /\
  wrapper_live l' (cancel l h) = wrapper_live l' h /\
  intervals (tables (cancel l h)) = intervals (tables h).
Proof.
  intros N. cbn zeta.
  destruct (run_tidy behaviour acts) as [_ Inj].
  generalize dependent (host (run behaviour acts fresh)). intros h Inj.
  split; [apply cancel_not_live |].
  unfold wrapper_live, cancel, read_id, _cancelAnimationFrame.
  destruct (cells h !! l) as [[j |] |] eqn:E; [| done | done]. cbn.
  split; [| done].
  destruct (cells h !! l') as [[i |] |] eqn:E'; [| done | done].
  apply existsb_filter_other. intros ->. apply N. eauto.
Qed.

Lemma filter_others i (fs : list (nat * closure)) :
  (forall e, In e fs -> fst e <> i) ->
  List.filter (fun e => negb (pending i e)) fs = fs.
Proof.
  induction fs as [| e fs IH]; intros H; [done |]. cbn.
  unfold pending at 1.
  destruct (Nat.eqb_spec (fst e) i) as [E | _].
  - exfalso. apply (H e); [by left | done].
  - cbn. rewrite IH; [done |]. intros e' H'. apply H. by right.
Qed.

Lemma frames_known_same h h' :
  frames (tables h') = frames (tables h) -> next_frame h' = next_frame h ->
  frames_known h -> frames_known h'.
Proof. unfold frames_known. by intros -> ->. Qed.

Lemma frames_known_filter (p : nat * closure -> bool) h :
  frames_known h ->
  frames_known
    (set_tables {| intervals := intervals (tables h);
                   frames := List.filter p (frames (tables h)) |} h).
Proof.
  intros [D K]. split; cbn.
  - clear K. induction (frames (tables h)) as [| e fs IH]; [done |].
    cbn in *. apply NoDup_cons in D as [Hn D].
    destruct (p e); cbn; [| by apply IH].
    apply NoDup_cons. split; [| by apply IH].
    intros Hin. apply Hn. apply list_elem_of_In in Hin.
    apply list_elem_of_In. apply in_map_iff in Hin as (e' & He & Hin).
    apply filter_In in Hin as [Hin _]. apply in_map_iff. eauto.
  - intros e [Hin _]%filter_In. by apply K.
Qed.

Lemma frames_known_request f h :
  frames_known h -> frames_known (snd (_requestAnimationFrame f h)).
Proof.
  intros [D K]. split; cbn.
  - rewrite map_app. cbn. apply NoDup_app. split; [done |]. split.
    + intros i Hin Hi. apply list_elem_of_In in Hi as [Hi | []].
      apply list_elem_of_In, in_map_iff in Hin as (e & He & Hin).
      apply K in Hin. lia.
    + apply NoDup_singleton.
  - intros e [Hin | [<- | []]]%in_app_iff; [| cbn; lia].
    apply K in Hin. lia.
Qed.

Lemma frames_known_resubmit f h : frames_known h -> frames_known (resubmit f h).
Proof.
  intros H. apply (frames_known_same (snd (_requestAnimationFrame f h)));
    [done | done |]. by apply frames_known_request.
Qed.

Lemma run_frames_known behaviour acts :
  frames_known (host (run behaviour acts fresh)).
Proof.
  apply kept_by_run.
  - intros cb ms h. by apply frames_known_same.
  - intros [i |] h; [by apply frames_known_same | done].
  - intros cb h H. unfold animationFrameWrapper; cbn [snd].
    apply frames_known_resubmit. revert H. by apply frames_known_same.
  - intros l h H. unfold cancel, _cancelAnimationFrame.
    destruct (read_id l h); [by apply frames_known_filter | done].
  - intros i h H. by apply frames_known_filter.
  - apply frames_known_resubmit.
  - intros cb h. by apply frames_known_same.
  - split; [constructor | intros e []].
Qed.

Section ManyWrappers.

Variable behaviour : callback -> list cmd.
Hypothesis silent : forall cb, behaviour cb = [].

Lemma fire_first i f rest w :
  frames (tables (host w)) = (i, f) :: rest ->
  (forall e, In e rest -> fst e <> i) ->
  let w' := fire_frame behaviour i w in
  frames (tables (host w')) = rest ++ [(next_frame (host w), f)] /\
  next_frame (host w') = S (next_frame (host w)) /\
  invoked (host w') = h_callback f :: invoked (host w) /\
  intervals (tables (host w')) = intervals (tables (host w)).
Proof.
  intros F O. cbn zeta.
  assert (fire_frame behaviour i w =
          with_host (log_call (h_callback f)
                       (resubmit f (take_frame i (host w)))) w) as E.
  { unfold fire_frame. rewrite F. cbn [find].
    unfold pending. cbn [fst]. rewrite Nat.eqb_refl.
    unfold handle, invoke. rewrite silent. by destruct w. }
  rewrite E. clear E.
  destruct w as [[[ints frs] ni nf cs inv hist] t o]. cbn in *. subst frs.
  cbn. unfold pending at 1. cbn [fst]. rewrite Nat.eqb_refl. cbn [negb].
  by rewrite filter_others.
Qed.

Lemma fire_all rest done_ w :
  frames (tables (host w)) = rest ++ done_ ->
  NoDup (map fst rest) ->
  (forall e, In e rest -> fst e < next_frame (host w)) ->
  (forall e, In e done_ -> ~ In (fst e) (map fst rest)) ->
  let w' := fold_left (fun w i => fire_frame behaviour i w) (map fst rest) w in
  frames (tables (host w')) = done_ ++ renumber (next_frame (host w)) rest /\
  invoked (host w') =
    rev (map (fun e => h_callback (snd e)) rest) ++ invoked (host w) /\
  intervals (tables (host w')) = intervals (tables (host w)).
Proof.
  revert done_ w. induction rest as [| [i f] rest IH]; intros done_ w F D K O.
  { cbn. by rewrite app_nil_r. }
  cbn [map fst fold_left]. cbn [map fst] in D.
  apply NoDup_cons in D as [Hi D].
  destruct (fire_first i f (rest ++ done_) w F) as (F1 & N1 & I1 & T1).
  { intros e [Hin | Hin]%in_app_iff.
    - intros E. apply Hi. apply list_elem_of_In, in_map_iff. eauto.
    - intros E. apply (O e Hin). left. done. }
  rewrite <- app_assoc in F1.
  destruct (IH (done_ ++ [(next_frame (host w), f)])
               (fire_frame behaviour i w) F1 D) as (F2 & I2 & T2).
  { intros e Hin. rewrite N1. specialize (K e (or_intror Hin)). lia. }
  { intros e [Hin | [<- | []]]%in_app_iff.
    - intros Hm. apply (O e Hin). by right.
    - cbn [fst]. intros (e & E & Hin)%in_map_iff.
      specialize (K e (or_intror Hin)). lia. }
  cbn zeta in *. rewrite F2, I2, T2, N1, I1, T1. repeat split.
  - by rewrite <- app_assoc.
  - cbn [map rev snd]. by rewrite <- app_assoc.
Qed.

Lemma renumber_spec n l :
  map snd (renumber n l) = map snd l /\
  map fst (renumber n l) = seq n (length l).
Proof.
  revert n. induction l as [| [i f] l IH]; intros n; [done |].
  cbn. destruct (IH (S n)) as [-> ->]. done.
Qed.

Lemma calls_of_rev cb (fs : list (nat * closure)) ints :
  calls_of cb (rev (map (fun e => h_callback (snd e)) fs)) =
  sync_sources cb {| intervals := ints; frames := fs |}.
Proof.
  unfold calls_of, sync_sources. cbn [frames].
  rewrite (filter_length_perm _ _ (map (fun e => h_callback (snd e)) fs))
    by (symmetry; apply Permutation_rev).
  induction fs as [| e fs IH]; [done |]. cbn.
  destruct (bool_decide _); cbn; by rewrite IH.
Qed.

End ManyWrappers.

(** X10: a refresh with any number of wrappers pending.  In any state
    reached from a new loop whose callbacks do not call back into the loop
    (any calls of the methods, [start] on a running loop included, any
    events), one refresh of the display runs the callback of every pending
    wrapper once, in the order of the requests, so that each callback runs
    as many times as it has display-sync sources; afterwards the same
    wrappers are pending again, in the same order, under new ids, and the
    timers are as they were. *)
Theorem refresh_runs_every_wrapper behaviour (acts : list action) :
  (forall cb, behaviour cb = []) ->
  let w := run behaviour acts fresh in
  let fs := frames (tables (host w)) in
  let ran := rev (map (fun e => h_callback (snd e)) fs) in
  invoked (host (refresh behaviour w)) = ran ++ invoked (host w) /\
  (forall cb, calls_of cb ran = sync_sources cb (tables (host w))) /\
  map snd (frames (tables (host (refresh behaviour w)))) = map snd fs /\
  map fst (frames (tables (host (refresh behaviour w)))) =
    seq (next_frame (host w)) (length fs) /\
  intervals (tables (host (refresh behaviour w))) =
    intervals (tables (host w)).
Proof.
  intros silent. cbn zeta.
  destruct (run_frames_known behaviour acts) as [D K].
  generalize dependent (run behaviour acts fresh). intros w D K.
  destruct (fire_all behaviour silent (frames (tables (host w))) [] w)
    as (F & I & T); trivial.
  { by rewrite app_nil_r. }
  { intros e []. }
  cbn zeta in *. fold (refresh behaviour w) in *. cbn [app] in F.
  destruct (renumber_spec (next_frame (host w)) (frames (tables (host w))))
    as [S1 S2].
  rewrite F, I, T, S1, S2. repeat split.
  intros cb. destruct (tables (host w)) as [ints fs]. apply calls_of_rev.
Qed.

(** * The VR extension *)

(** ** A session from request to end *)

Lemma context_renderer v g :
  _getContext v = Some g ->
  exists rt r, runtime v = Some rt /\ renderer rt = Some r /\ gl r = Some g.
Proof.
  unfold _getContext. destruct (runtime v) as [rt |]; [| done].
  destruct (renderer rt) as [r |] eqn:E; [| done].
  intros H. by exists rt, r.
Qed.

(** X11: the life of a session.  On an extension that is closed and whose
    runtime has a renderer with a context, [createSession] starts a request;
    once the session is granted the extension is open, the renderer is in
    XR mode with a layer made for that session, and [createSession] does
    nothing; when the session ends, whether [closeSession] was called or
    the user left, the extension is closed, its session is cleared, the
    frame buffer is bound back and the renderer is out of XR mode, so that
    [createSession] starts a request again.  The field [_xrSession] of the
    renderer and the device are left as they were. *)
Theorem session_life_cycle (g s : nat) (v : jgVr) :
  _getContext v = Some g -> open v = false -> session v = None ->
  let requested := _createImmersive_compatible (snd (createSession true v)) in
  let granted := _createImmersive_granted g s requested in
  let layer := Layer s g true true false in
  let ended := end_listener granted in
  fst (createSession true v) = Some Waiting /\
  calls requested = RequestSession :: MakeXRCompatible :: calls v /\
  isOpened granted = true /\ session granted = Some s /\
  (exists r, _getRenderer granted = Some r /\ xrEnabled r = true /\
             xrLayer r = Some layer /\ _xrSession r = Some s) /\
  calls granted =
    RequestFrame s :: UpdateRenderState s layer :: AddEndListener s ::
    calls requested /\
  (forall xr, createSession xr granted = (None, granted)) /\
  isOpened ended = false /\ session ended = None /\
  (exists r, _getRenderer ended = Some r /\ xrEnabled r = false /\
             xrLayer r = None /\ _xrSession r = Some s) /\
  device ended = device v /\
  calls ended = BindFramebuffer :: calls granted /\
  calls (closeSession granted) = End s :: calls granted /\
  runtime (end_listener (closeSession granted)) = runtime ended /\
  isOpened (end_listener (closeSession granted)) = false /\
  session (end_listener (closeSession granted)) = None /\
  calls (end_listener (closeSession granted)) =
    BindFramebuffer :: End s :: calls granted /\
  fst (createSession true ended) = Some Waiting /\
  (forall xr, fst (createSession xr (closeSession granted)) = None).
Proof.
  intros (rt & r & Hrt & Hr & Hg)%context_renderer Ho Hs.
  destruct v as [rt' o s' d c]. destruct rt as [r' wd]. cbn in *. subst.
  destruct r as [cv g' xe xl xs di]. cbn in *. subst.
  unfold createSession, _createImmersive, _getContext, _getRenderer; cbn.
  repeat split; eauto.
Qed.

(** ** The render loop of a session *)

Lemma drawFrame_closed s d v : open v = false -> drawFrame s d v = v.
Proof. intros H. unfold drawFrame. by rewrite H. Qed.

Lemma frames_of_closed s ds v : open v = false -> frames_of s ds v = v.
Proof.
  intros H. induction ds as [| d ds IH]; [done |].
  cbn. by rewrite drawFrame_closed.
Qed.

Lemma on_renderer_fields f v :
  open (on_renderer f v) = open v /\ session (on_renderer f v) = session v /\
  device (on_renderer f v) = device v /\ calls (on_renderer f v) = calls v.
Proof.
  unfold on_renderer, store, _getRenderer.
  destruct (runtime v) as [rt |]; [| done]. by destruct (renderer rt).
Qed.

Lemma drawFrame_open s d v :
  open v = true ->
  open (drawFrame s d v) = true /\
  session (drawFrame s d v) = session v /\
  device (drawFrame s d v) = d /\
  calls (drawFrame s d v) = RequestFrame s :: Draw :: calls v /\
  (forall r, _getRenderer v = Some r ->
             _getRenderer (drawFrame s d v) = Some (set_dirty true r)).
Proof.
  intros H. unfold drawFrame. rewrite H.
  cbn [negb log open session device calls].
  destruct (on_renderer_fields (set_dirty true) (set_device d v))
    as (-> & -> & -> & ->).
  repeat split; trivial.
  intros r. unfold on_renderer, _getRenderer, store. cbn.
  destruct (runtime v) as [rt |]; [| done]. by intros ->.
Qed.

(** X12: the render loop.  While the extension is open each frame of the
    session draws once, stores the device of the frame and asks for the
    next frame; as soon as it is closed (by [closeSession], or by the end
    of the session) the frames that still arrive change nothing, draw
    nothing and ask for no further frame. *)
Theorem render_loop (s : nat) (ds : list (option Device)) (v : jgVr) :
  (open v = false -> frames_of s ds v = v) /\
  (open v = true ->
     open (frames_of s ds v) = true /\
     session (frames_of s ds v) = session v /\
     device (frames_of s ds v) = default (device v) (last ds) /\
     calls (frames_of s ds v) =
       concat (repeat [RequestFrame s; Draw] (length ds)) ++ calls v) /\
  frames_of s ds (closeSession v) = closeSession v /\
  frames_of s ds (end_listener v) = end_listener v.
Proof.
  split; [apply frames_of_closed |]. split.
  - revert v. induction ds as [| d ds IH]; intros v H; [done |].
    destruct (drawFrame_open s d v H) as (O & S & D & C & _).
    destruct (IH _ O) as (O' & S' & D' & C').
    cbn [frames_of fold_left] in *.
    fold (frames_of s ds (drawFrame s d v)) in *.
    rewrite O', S', D', C', S, D, C. repeat split; trivial.
    + rewrite last_cons. by destruct (last ds).
    + change (RequestFrame s :: Draw :: calls v)
        with ([RequestFrame s; Draw] ++ calls v).
      rewrite app_assoc. f_equal. cbn [length repeat concat].
      generalize (length ds). intros n.
      induction n as [| n IHn]; [done |].
      cbn [repeat concat]. by rewrite <- app_assoc, IHn.
  - split; apply frames_of_closed.
    + unfold closeSession. cbn. by destruct (session v).
    + unfold end_listener, _disposeImmersive, _getContext, _getRenderer, store.
      cbn. destruct (runtime v) as [rt |]; [| done].
      destruct (renderer rt) as [r |]; [| done]. by destruct (gl r).
Qed.

(** ** The guards of [createSession] *)

(** X13: [createSession] does nothing while the extension is open or has a
    session.  Otherwise it resolves to [false] without WebXR, and to
    [undefined], having called nothing, when the runtime, its renderer or
    the context is missing; the check of the renderer that follows can
    never fail, a context being read through the renderer.  A request that
    is still pending is not guarded against: until the session is granted
    a second [createSession] starts a second request. *)
Theorem createSession_guards (xr : bool) (v : jgVr) :
  (open v = true \/ session v <> None -> createSession xr v = (None, v)) /\
  (open v = false -> session v = None ->
     (xr = false -> createSession xr v = (Some Resolved_false, v)) /\
     (xr = true -> _getContext v = None ->
        createSession xr v = (Some Resolved_undefined, v)) /\
     (xr = true -> _getContext v <> None ->
        createSession xr v = (Some Waiting, log MakeXRCompatible v) /\
        createSession xr
          (_createImmersive_compatible (snd (createSession xr v))) =
        (Some Waiting,
         log MakeXRCompatible
           (log RequestSession (log MakeXRCompatible v))))) /\
  (_getContext v <> None -> _getRenderer v <> None).
Proof.
  split; [| split].
  - unfold createSession. intros [-> | H]; [done |].
    destruct (open v); [done |]. by destruct (session v).
  - intros O S. unfold createSession. rewrite O, S.
    split; [by intros -> |]. split.
    + intros -> G. unfold _createImmersive. by rewrite G.
    + intros -> G.
      destruct (_getContext v) as [g |] eqn:E; [clear G | done].
      destruct (context_renderer v g E) as (rt & r & Hrt & Hr & Hg).
      clear E. destruct v as [rt' o s d c]. cbn in *. subst.
      unfold _createImmersive, _createImmersive_compatible, _getContext,
        _getRenderer.
      cbn. rewrite Hr. cbn. rewrite Hg. cbn. rewrite Hr. cbn. by rewrite Hg.
  - intros G. destruct (_getContext v) as [g |] eqn:E; [clear G | done].
    destruct (context_renderer v g E) as (rt & r & Hrt & Hr & Hg).
    unfold _getRenderer. by rewrite Hrt, Hr.
Qed.

(** ** The reporters *)

Lemma mul_neg_l x y : mul (neg x) y = neg (mul x y).
Proof.
  unfold mul, neg.
  destruct x as [sx | sx | | sx mx ex], y as [sy | sy | | sy my ey];
    cbn [SFmul SFopp]; try done;
    try (by destruct sx, sy).
  replace (xorb (negb sx) sy) with (negb (xorb sx sy)) by (by destruct sx, sy).
  apply round_aux_neg.
Qed.

(** X14: the two conversions of angles are odd functions: the opposite
    angle gives the opposite result, for every number ([NaN], the zeros and
    the infinities included). *)
Theorem conversions_are_odd (x : number) :
  toRad (neg x) = neg (toRad x) /\ toDeg (neg x) = neg (toDeg x).
Proof. unfold toRad, toDeg. by rewrite !mul_neg_l. Qed.

Lemma sub_zero_l x :
  sub (of_Z 0) x = if strict_eq x zero then zero else neg x.
Proof. by destruct x as [[] | [] | | [] m e]. Qed.

Section Reporters.

Variable Cast_toString : argument -> string.
Variable toLowerCase : string -> string.
Variable trim : string -> string.
Variable atan2 : number -> number -> number.
Variable asin : number -> number.

(** X15: [placement169] gives, for the side ["right"], 120 times the width
    of the stage over 640, and for any other side the opposite of that
    number (0 when that number is 0 or -0); it reads the width from the
    runtime without checking that there is one, and throws when there is
    none. *)
Theorem placement169_mirror (SIDE : argument) (v : jgVr) :
  match runtime v with
  | None => placement169 Cast_toString toLowerCase trim SIDE v = TypeError
  | Some rt =>
      let right := mul (of_Z 120) (div (stageWidth rt) (of_Z 640)) in
      placement169 Cast_toString toLowerCase trim SIDE v =
      Normal (if String.eqb (normalize Cast_toString toLowerCase trim SIDE)
                            "right"
              then right
              else if strict_eq right zero then zero else neg right)
  end.
Proof.
  unfold placement169. destruct (runtime v) as [rt |]; [| done].
  cbn zeta.
  replace (sub (div (of_Z 640) (of_Z 4)) (of_Z 40)) with (of_Z 120)
    by (by vm_compute).
  rewrite sub_zero_l. by destruct (String.eqb _ _).
Qed.

(** Normalising a normalised string changes nothing. *)
Hypothesis idempotent :
  forall a,
    normalize Cast_toString toLowerCase trim
      (Text (normalize Cast_toString toLowerCase trim a)) =
    normalize Cast_toString toLowerCase trim a.

Lemma isVector3Menu_axis a :
  _isVector3Menu Cast_toString toLowerCase trim
    (Text (normalize Cast_toString toLowerCase trim a)) =
  bool_decide (normalize Cast_toString toLowerCase trim a ∈ ["x"; "y"; "z"]).
Proof.
  unfold _isVector3Menu. cbn zeta. rewrite idempotent.
  generalize (normalize Cast_toString toLowerCase trim a). intros s.
  cbn [existsb].
  destruct (String.eqb_spec s "x") as [-> | Nx]; [done |].
  destruct (String.eqb_spec s "y") as [-> | Ny]; [done |].
  destruct (String.eqb_spec s "z") as [-> | Nz]; [done |].
  cbn. symmetry. apply bool_decide_eq_false.
  intros H. repeat (apply elem_of_cons in H as [H | H]; [done |]).
  by apply elem_of_nil in H.
Qed.

(** X16: the two reporters of the headset.  While the extension is open
    with a session and a device, and the argument names an axis (after
    [Cast.toString], [toLowerCase] and [trim]), [headsetPosition] gives the
    coordinate of the device on that axis (nothing when the array is too
    short) and [headsetRotation] the Euler angle about it, in degrees.  In
    every other case [headsetPosition] gives [undefined] and
    [headsetRotation] gives 0. *)
Theorem headset_reporters (VECTOR3 : argument) (v : jgVr) :
  let axis := normalize Cast_toString toLowerCase trim VECTOR3 in
  let pos := headsetPosition Cast_toString toLowerCase trim VECTOR3 v in
  let rot :=
    headsetRotation Cast_toString toLowerCase trim atan2 asin VECTOR3 v in
  (forall k d,
     open v = true -> session v <> None -> device v = Some d ->
     ["x"; "y"; "z"] !! k = Some axis ->
     pos = position d !! k /\
     rot = toDeg (at_index k (quaternionToEuler atan2 asin (quaternion d)))) /\
  (open v = false \/ session v = None \/ device v = None \/
   axis ∉ ["x"; "y"; "z"] ->
   pos = None /\ rot = of_Z 0).
Proof.
  cbn zeta. unfold headsetPosition, headsetRotation. cbn zeta.
  rewrite isVector3Menu_axis. split.
  - intros k d -> Hs ->. destruct (session v) as [s |]; [| done]. cbn [negb].
    intros Hk.
    rewrite bool_decide_eq_true_2 by (by eapply list_elem_of_lookup_2).
    cbn [negb].
    destruct k as [| [| [| k]]]; cbn in Hk; try done;
      injection Hk as <-; done.
  - intros H.
    destruct (open v); [| done]. cbn [negb].
    destruct (session v) as [s |]; [| done].
    destruct (device v) as [d |]; [| done].
    destruct H as [H | [H | [H | H]]]; try done.
    by rewrite bool_decide_eq_false_2.
Qed.

End Reporters.

(** ** The further properties at work on concrete runs *)

Lemma halting_safe : forall cb, Forall engine_safe (halting cb).
Proof. intros []; repeat constructor. Qed.

Lemma callbacks_delivered_witness :
  let w := run busy [Do (SetInterpolation true); Do Start] fresh in
  invoked (host (refresh busy w)) = [Bound_renderInterpolatedPositions] /\
  invoked (host (tick busy 1 w)) = [Bound_step] /\
  invoked (host (tick busy 2 w)) = [] /\
  invoked (host (do_call (SetFramerate zero) w)) = [].
Proof.
  set (w := run busy _ fresh). cbn zeta.
  assert (reachable busy w) as Hr by from_run.
  destruct (callbacks_delivered busy busy_safe w Hr) as (A & B & C).
  rewrite A, (B 1), (B 2), (C (SetFramerate zero)).
  repeat split; computed.
Defined.

Lemma stopped_loop_is_inert_witness :
  let w := run quiet [Do Start; Refresh; Tick 1; Do Stop] fresh in
  let events := [Refresh; Tick 1; Fire 1; Refresh] in
  running (loop w) = false /\ Forall host_event events /\
  run quiet events w = w.
Proof.
  set (w := run quiet _ fresh). cbn zeta.
  set (events := [Refresh; Tick 1; Fire 1; Refresh]).
  assert (reachable quiet w) as Hr by from_run.
  assert (running (loop w) = false) as R by computed.
  assert (Forall host_event events) as He by (repeat constructor).
  split; [exact R |]. split; [exact He |].
  exact (stopped_loop_is_inert quiet quiet_safe w events Hr R He).
Defined.

Lemma sources_follow_configuration_witness :
  let w := run quiet [Do (SetInterpolation true); Do Start;
                      Do (SetFramerate zero); Refresh] fresh in
  sources Bound_step (tables (host w)) = 1 /\
  sources Bound_renderInterpolatedPositions (tables (host w)) = 0.
Proof.
  set (w := run quiet _ fresh). cbn zeta.
  assert (reachable quiet w) as Hr by from_run.
  destruct (sources_follow_configuration quiet quiet_safe w Hr) as (A & B & _).
  rewrite A, B. split; computed.
Defined.

Lemma tick_interval_tracks_rate_witness :
  let acts := [Do (SetFramerate (of_Z 30)); Do Start; Tick 1] in
  let w := run quiet acts fresh in
  legal_run quiet acts fresh = true /\
  running (loop w) = true /\
  strict_eq (framerate (loop w)) zero = false /\
  currentStepTime w = tick_interval (framerate (loop w)) /\
  exists i, _stepInterval (loop w) = Some i /\
            intervals (tables (host w)) =
              {[ i := (Bound_step, currentStepTime w) ]}.
Proof.
  intros acts. cbn zeta.
  assert (legal_run quiet acts fresh = true) as L by computed.
  assert (running (loop (run quiet acts fresh)) = true) as R by computed.
  assert (strict_eq (framerate (loop (run quiet acts fresh))) zero = false)
    as E by computed.
  destruct (tick_interval_tracks_rate quiet acts) as [T H].
  split; [exact L |]. split; [exact R |]. split; [exact E |].
  split; [exact T |]. exact (H quiet_safe L R E).
Defined.

Lemma setInterpolation_effect_witness :
  let w := run quiet [Do Start] fresh in
  running (loop w) = true /\
  interpolation_live (setInterpolation true w) =
    negb (strict_eq (framerate (loop w)) zero) && true.
Proof.
  set (w := run quiet _ fresh). cbn zeta.
  assert (reachable quiet w) as Hr by from_run.
  assert (running (loop w) = true) as R by computed.
  destruct (setInterpolation_effect true w) as (_ & _ & _ & _ & _ & _ & H).
  split; [exact R |]. exact (H quiet quiet_safe Hr R).
Defined.

Lemma rate_is_not_checked_witness :
  let fps := of_Z (-30) in
  valid fps = true /\ is_finite fps = true /\ less fps zero = true /\
  strict_eq fps zero = false /\
  framerate (loop (setFramerate fps fresh)) = fps /\
  less (currentStepTime (setFramerate fps fresh)) zero = true /\
  currentStepTime (setFramerate (neg fps) fresh) =
    neg (currentStepTime (setFramerate fps fresh)).
Proof.
  intros fps.
  assert (valid fps = true) as V by computed.
  assert (is_finite fps = true) as F by computed.
  assert (less fps zero = true) as L by computed.
  assert (strict_eq fps zero = false) as E by computed.
  destruct (rate_is_not_checked fps fresh) as (M & N & _).
  destruct (N V F L) as [A B].
  do 4 (split; [assumption |]). split; [exact A |]. split; [exact B |].
  exact (M E).
Defined.

Lemma stop_from_step_callback_witness :
  let w := run halting [Do (SetFramerate zero); Do Start] fresh in
  let a := if strict_eq (framerate (loop w)) zero then Refresh
           else match _stepInterval (loop w) with
                | Some i => Tick i
                | None => Refresh
                end in
  running (loop w) = true /\
  halting Bound_step = [] ++ [Method Stop] /\
  invoked (host (exec halting a w)) = Bound_step :: invoked (host w) /\
  running (loop (exec halting a w)) = false /\
  no_sources (tables (host (exec halting a w))).
Proof.
  set (w := run halting _ fresh). cbn zeta.
  assert (reachable halting w) as Hr by from_run.
  assert (running (loop w) = true) as R by computed.
  assert (halting Bound_step = [] ++ [Method Stop]) as B by reflexivity.
  destruct (stop_from_step_callback halting halting_safe w [] Hr R B)
    as (A & S & N & _).
  split; [exact R |]. split; [exact B |]. split; [exact A |].
  split; [exact S | exact N].
Defined.

Lemma cancel_is_private_witness :
  let h := host (run quiet [Do (SetInterpolation true); Do Start; Do Start]
                     fresh) in
  0 <> 1 /\
  wrapper_live 0 h = true /\ wrapper_live 1 h = true /\
  wrapper_live 0 (cancel 0 h) = false /\
  wrapper_live 1 (cancel 0 h) = wrapper_live 1 h.
Proof.
  cbn zeta.
  assert (0 <> 1) as N by lia.
  destruct (cancel_is_private quiet
              [Do (SetInterpolation true); Do Start; Do Start] 0 1 N)
    as (A & B & _).
  split; [exact N |]. split; [computed |]. split; [computed |].
  split; [exact A | exact B].
Defined.

Lemma refresh_runs_every_wrapper_witness :
  let w := run quiet [Do (SetFramerate zero); Do Start; Do Start; Do Start]
               fresh in
  (forall cb, quiet cb = []) /\
  invoked (host (refresh quiet w)) = [Bound_step; Bound_step; Bound_step] /\
  map fst (frames (tables (host (refresh quiet w)))) = [4; 5; 6].
Proof.
  cbn zeta.
  assert (forall cb, quiet cb = []) as Q by reflexivity.
  destruct (refresh_runs_every_wrapper quiet
              [Do (SetFramerate zero); Do Start; Do Start; Do Start] Q)
    as (A & _ & _ & B & _).
  split; [exact Q |]. split; [rewrite A; computed | rewrite B; computed].
Defined.

Lemma session_life_cycle_witness :
  let granted :=
    _createImmersive_granted 1 7
      (_createImmersive_compatible (snd (createSession true studio))) in
  _getContext studio = Some 1 /\ open studio = false /\
  session studio = None /\
  fst (createSession true studio) = Some Waiting /\
  isOpened granted = true /\
  isOpened (end_listener granted) = false /\
  session (end_listener granted) = None.
Proof.
  cbn zeta.
  assert (_getContext studio = Some 1) as G by reflexivity.
  assert (open studio = false) as O by reflexivity.
  assert (session studio = None) as S by reflexivity.
  destruct (session_life_cycle 1 7 studio G O S)
    as (A & _ & B & _ & _ & _ & _ & C & D & _).
  do 3 (split; [assumption |]). split; [exact A |]. split; [exact B |].
  split; [exact C | exact D].
Defined.

Lemma headset_reporters_witness :
  (forall a, normalize plain unchanged unchanged
               (Text (normalize plain unchanged unchanged a)) =
             normalize plain unchanged unchanged a) /\
  open immersed = true /\ session immersed <> None /\
  headsetPosition plain unchanged unchanged (Text "y") immersed =
    Some (of_Z 2) /\
  headsetPosition plain unchanged unchanged (Text "w") immersed = None /\
  headsetRotation plain unchanged unchanged (fun _ _ => zero) (fun _ => zero)
    (Text "w") immersed = of_Z 0.
Proof.
  assert (forall a, normalize plain unchanged unchanged
                      (Text (normalize plain unchanged unchanged a)) =
                    normalize plain unchanged unchanged a) as I
    by (by intros []).
  assert (open immersed = true) as O by reflexivity.
  assert (session immersed <> None) as S by done.
  destruct (headset_reporters plain unchanged unchanged
              (fun _ _ => zero) (fun _ => zero) I (Text "y") immersed)
    as [H _].
  destruct (headset_reporters plain unchanged unchanged
              (fun _ _ => zero) (fun _ => zero) I (Text "w") immersed)
    as [_ H'].
  assert (normalize plain unchanged unchanged (Text "w") ∉ ["x"; "y"; "z"])
    as N.
  { intros Hin.
    repeat (apply elem_of_cons in Hin as [Hin | Hin]; [discriminate |]).
    by apply elem_of_nil in Hin. }
  split; [exact I |]. split; [exact O |]. split; [exact S |].
  split; [| split].
  - exact (proj1 (H 1 _ O S eq_refl eq_refl)).
  - exact (proj1 (H' (or_intror (or_intror (or_intror N))))).
  - exact (proj2 (H' (or_intror (or_intror (or_intror N))))).
Defined.
